(** * sqlite-store: the [Store] class of src/index.ts

    A shallow embedding of the TypeScript class [Store] (a Keyv-backed
    key-value store that keeps the whole keyspace in an in-memory object and
    writes it back as one blob), and the properties of it that the
    specification states.

    Layout:
    - [JsString]: the string methods the constructor uses on the address;
    - [Js]: JavaScript values, completions, and the world the class runs in
      (the store objects, the event-loop queue, the backend, the log);
    - [Store]: the methods of the class, one definition per method;
    - the lemmas about them. *)

From Stdlib Require Import Ascii String ZArith Lia.
From stdpp Require Import base tactics option list gmap strings fin_maps.

Local Open Scope string_scope.
Local Open Scope Z_scope.

(** ** JavaScript string methods *)

Module JsString.

(** A string is read as the sequence of its code units. *)
Definition units (s : string) : list ascii := list_ascii_of_string s.
Definition of_units (l : list ascii) : string := string_of_list_ascii l.

(** [s.startsWith(p)] *)
Definition startsWith (s p : string) : bool :=
  bool_decide (take (length (units p)) (units s) = units p).

(** [s.endsWith(p)] *)
Definition endsWith (s p : string) : bool :=
  bool_decide
    (drop (length (units s) - length (units p))%nat (units s) = units p).

(** A relative index of [slice]: negative counts from the end, and the
    result is clamped to [0, len]. *)
Definition clamp (len i : Z) : Z :=
  if i <? 0 then Z.max (len + i) 0 else Z.min i len.

(** [s.slice(start, stop)] *)
Definition slice (s : string) (start stop : Z) : string :=
  let len := Z.of_nat (length (units s)) in
  let from := clamp len start in
  let to := clamp len stop in
  let span := Z.max (to - from) 0 in
  of_units (take (Z.to_nat span) (drop (Z.to_nat from) (units s))).

End JsString.

(** ** The address normalisation of the constructor *)

Definition extension : string := ".sqlite".
Definition scheme : string := "sqlite://".

(** Lines 40-41: [if (!uri.endsWith(".sqlite")) uri += ".sqlite";
    if (!uri.startsWith("sqlite://")) uri = "sqlite://" + uri;] *)
Definition normalize (uri : string) : string :=
  let uri := if negb (JsString.endsWith uri extension)
             then uri ++ extension else uri in
  let uri := if negb (JsString.startsWith uri scheme)
             then scheme ++ uri else uri in
  uri.

(** Line 42: [this.cleanUri = uri.slice(9, -7)], on the normalised address. *)
Definition cleanUri_of (uri : string) : string :=
  JsString.slice uri 9 (-7).

(** ** JavaScript values and the collaborators of the class *)

Module Js.

(** The values the class handles. Stored values are opaque to it: the
    code only compares them with [undefined], [null] and [false]. *)
Inductive value : Type :=
| VUndefined
| VNull
| VBool (b : bool)
| VNum (n : Z)
| VStr (s : string).

#[global] Instance value_eq_dec : EqDecision value.
Proof. solve_decision. Defined.

(** [!v] is [negb (truthy v)]. *)
Definition truthy (v : value) : bool :=
  match v with
  | VUndefined | VNull => false
  | VBool b => b
  | VNum n => negb (n =? 0)
  | VStr s => negb (bool_decide (s = ""))
  end.

(** How a call ends: with a value, or with a thrown [TypeError] (a method
    called on [null]). *)
Inductive completion (A : Type) : Type :=
| Normal (a : A)
| Abrupt.
Arguments Normal {A} a.
Arguments Abrupt {A}.

(** The result signals of the public methods. *)
Definition NotConnected : value := VUndefined.
Definition NotFound : value := VNull.
Definition Failure : value := VBool false.
Definition Success : value := VBool true.

(** Modelled from the spec: the Keyv backend is an external collaborator
    (section 6: [connect(address) -> handle], asynchronous [get], [set] and
    [disconnect], an error event channel). A handle remembers its address
    and the events a listener was registered for. *)
Record Keyv : Type := MkKeyv {
  kv_uri : string;
  kv_listeners : list string
}.

Definition new_Keyv (uri : string) : Keyv :=
  {| kv_uri := uri; kv_listeners := [] |}.

Inductive level : Type := Debug | Warn | Error.

End Js.

Export Js.

(** The in-memory object [this.store], used as a dictionary: its own
    properties, by key. The loop [for (const key in o)] visits each own key
    once; the results below do not depend on the order. The names every
    object inherits ("constructor", "toString", "__proto__", ...) are not
    data keys and are outside the model. *)
Abbreviation mirror := (gmap string value).

(** ** The class *)

Module Store.

(** The fields of an instance. *)
Record obj : Type := Obj {
  cleanUri : string;
  inDevMode : bool;
  uri : string;
  keyv : option Keyv;
  store : mirror;
  connected_ : bool
}.

Definition with_inDevMode (b : bool) (o : obj) : obj :=
  {| cleanUri := cleanUri o; inDevMode := b; uri := uri o;
     keyv := keyv o; store := store o; connected_ := connected_ o |}.
Definition with_keyv (k : option Keyv) (o : obj) : obj :=
  {| cleanUri := cleanUri o; inDevMode := inDevMode o; uri := uri o;
     keyv := k; store := store o; connected_ := connected_ o |}.
Definition with_store (m : mirror) (o : obj) : obj :=
  {| cleanUri := cleanUri o; inDevMode := inDevMode o; uri := uri o;
     keyv := keyv o; store := m; connected_ := connected_ o |}.
Definition with_connected_ (b : bool) (o : obj) : obj :=
  {| cleanUri := cleanUri o; inDevMode := inDevMode o; uri := uri o;
     keyv := keyv o; store := store o; connected_ := b |}.

(** What the event loop still has to run: the reaction to a backend
    promise that has not settled yet.
    - [PersistWrite]: [keyv.set("store", this.store).catch(...)] of
      [update], with the [before] and [action] its callback closes over;
    - [LoadRead]: the rest of [connect] after [await keyv.get("store")];
    - [CloseHandle]: [keyv.disconnect().finally(...)] of [disconnect]. *)
Inductive task : Type :=
| PersistWrite (this : nat) (h : Keyv) (payload : mirror)
               (before : option mirror) (action : option string)
| LoadRead (this : nat) (h : Keyv)
| CloseHandle (this : nat).

(** The world: the instances by reference, the persisted record under the
    key "store" of each address, the pending reactions, the log. *)
Record World : Type := MkWorld {
  objects : gmap nat obj;
  backend : gmap string mirror;
  queue : list task;
  console : list (level * string)
}.

(** *** Threading the world through calls *)

Definition M (A : Type) : Type := World -> completion A * World.

Definition ret {A} (a : A) : M A := fun w => (Normal a, w).
Definition throw {A} : M A := fun w => (Abrupt, w).
Definition bind {A B} (m : M A) (k : A -> M B) : M B :=
  fun w => match m w with
           | (Normal a, w') => k a w'
           | (Abrupt, w') => (Abrupt, w')
           end.

Notation "'do' x <- m ; k" := (bind m (fun x => k))
  (at level 10, x name, m at level 100, k at level 200).
Notation "'do' '_' <- m ; k" := (bind m (fun _ => k))
  (at level 10, m at level 100, k at level 200).

Definition with_objects (os : gmap nat obj) (w : World) : World :=
  {| objects := os; backend := backend w; queue := queue w;
     console := console w |}.
Definition with_backend (b : gmap string mirror) (w : World) : World :=
  {| objects := objects w; backend := b; queue := queue w;
     console := console w |}.
Definition with_queue (q : list task) (w : World) : World :=
  {| objects := objects w; backend := backend w; queue := q;
     console := console w |}.
Definition with_console (c : list (level * string)) (w : World) : World :=
  {| objects := objects w; backend := backend w; queue := queue w;
     console := c |}.

(** Reading and writing the fields of [this]. A reference that names no
    instance cannot be called. *)
Definition self (this : nat) : M obj :=
  fun w => match objects w !! this with
           | Some o => (Normal o, w)
           | None => (Abrupt, w)
           end.

Definition modify (this : nat) (f : obj -> obj) : M unit :=
  fun w => match objects w !! this with
           | Some o => (Normal tt, with_objects (<[this := f o]> (objects w)) w)
           | None => (Abrupt, w)
           end.

Definition alloc (o : obj) : M nat :=
  fun w => let this := fresh (dom (objects w)) in
           (Normal this, with_objects (<[this := o]> (objects w)) w).

Definition spawn (t : task) : M unit :=
  fun w => (Normal tt, with_queue (queue w ++ [t]) w).

Definition log (l : level) (msg : string) : M unit :=
  fun w => (Normal tt, with_console (console w ++ [(l, msg)]) w).

Fixpoint for_each {A} (l : list A) (body : A -> M unit) : M unit :=
  match l with
  | [] => ret tt
  | x :: l' => do _ <- body x; for_each l' body
  end.

(** *** The methods, in the order of the source *)

(** [get internalStore()] *)
Definition internalStore (this : nat) : M mirror :=
  do o <- self this; ret (store o).

(** [get connected()]: [this.connected_ && this.keyv !== null] *)
Definition connected (this : nat) : M bool :=
  do o <- self this;
  ret (connected_ o && bool_decide (keyv o <> None)).

(** [addListener(event, listener)]; the listener itself only logs. *)
Definition addListener (this : nat) (event : string) : M value :=
  do c <- connected this;
  if negb c then ret VUndefined else
  do o <- self this;
  match keyv o with
  | None => throw
  | Some h =>
      do _ <- modify this
                (with_keyv (Some {| kv_uri := kv_uri h;
                                    kv_listeners := kv_listeners h ++ [event] |}));
      ret (VBool true)
  end.

(** [connect()], up to its [await]: the handle is created and the load is
    issued; what follows the [await] is [after_load] below. *)
Definition connect (this : nat) : M unit :=
  do o <- self this;
  let h := new_Keyv (uri o) in
  do _ <- modify this (with_keyv (Some h));
  do _ <- log Debug "Connected to";
  do _ <- addListener this "error";
  spawn (LoadRead this h).

(** [reconnect()] *)
Definition reconnect (this : nat) : M value :=
  do c <- connected this;
  if c then ret (VBool true) else
  do _ <- log Debug "Reconnecting to";
  do _ <- connect this;
  ret (VBool true).

(** [disconnect()] *)
Definition disconnect (this : nat) : M value :=
  do c <- connected this;
  if negb c then ret VUndefined else
  do o <- self this;
  match keyv o with
  | None => throw
  | Some _ =>
      do _ <- spawn (CloseHandle this);
      do _ <- modify this (with_keyv None);
      ret (VBool true)
  end.

(** [has(key)]: [key in this.store] *)
Definition has (this : nat) (key : string) : M value :=
  do c <- connected this;
  if negb c then ret VUndefined else
  do o <- self this;
  ret (VBool (bool_decide (is_Some (store o !! key)))).

(** [update(before?, action?)] *)
Definition update (this : nat) (before : option mirror)
    (action : option string) : M value :=
  do c <- connected this;
  if negb c then ret VUndefined else
  do o <- self this;
  if inDevMode o then ret (VBool true) else
  let failed := false in
  match keyv o with
  | None => throw
  | Some h =>
      do _ <- spawn (PersistWrite this h (store o) before action);
      ret (VBool (negb failed))
  end.

(** [this.store[key] = value] *)
Definition assign (this : nat) (key : string) (v : value) : M unit :=
  modify this (fun o => with_store (<[key := v]> (store o)) o).

(** [reconcile(template)] *)
Definition reconcile (this : nat) (template : mirror) : M value :=
  do c <- connected this;
  if negb c then ret VUndefined else
  do _ <- log Debug "Reconciling %s with template";
  do before <- internalStore this;
  do _ <- for_each (map_to_list template)
            (fun kv =>
               do h <- has this kv.1;
               if negb (truthy h) then assign this kv.1 kv.2 else ret tt);
  update this (Some before) (Some "reconcile").

(** [clear()] *)
Definition clear (this : nat) : M value :=
  do c <- connected this;
  if negb c then ret VUndefined else
  do _ <- log Debug "Clearing";
  do before <- internalStore this;
  do _ <- modify this (with_store ∅);
  update this (Some before) (Some "clear").

(** [delete(key)] *)
Definition delete (this : nat) (key : string) : M value :=
  do c <- connected this;
  if negb c then ret VUndefined else
  do h <- has this key;
  if negb (truthy h) then ret VNull else
  do before <- internalStore this;
  do _ <- modify this (fun o => with_store (base.delete key (store o)) o);
  update this (Some before) None.

(** [set(key, value)] *)
Definition set (this : nat) (key : string) (v : value) : M value :=
  do c <- connected this;
  if negb c then ret VUndefined else
  do before <- internalStore this;
  do _ <- assign this key v;
  update this (Some before) None.

(** [this.store[key]]: a missing property reads as [undefined]. *)
Definition read (this : nat) (key : string) : M value :=
  do o <- self this; ret (default VUndefined (store o !! key)).

(** [get(key, fallback?)]; an omitted fallback is [undefined]. *)
Definition get (this : nat) (key : string) (fallback : value) : M value :=
  do c <- connected this;
  if negb c then ret VUndefined else
  do h <- has this key;
  do stop <-
    (if negb (truthy h) then
       if bool_decide (fallback = VUndefined) then ret true else
       do r <- set this key fallback;
       if bool_decide (r = VBool false) then ret true else ret false
     else ret false);
  if (stop : bool) then ret VNull else read this key.

(** [copyKey(store, key, fallback?)] *)
Definition copyKey (this other : nat) (key : string) (fallback : value)
    : M value :=
  do c <- connected this;
  do c' <- (if negb c then ret true
            else do d <- connected other; ret (negb d));
  if (c' : bool) then ret VUndefined else
  do v <- get other key fallback;
  if bool_decide (v = VNull) then ret VNull else
  set this key v.

(** [copyFrom(store, clean?)]; an omitted [clean] is falsy. *)
Definition copyFrom (this other : nat) (clean : bool) : M value :=
  do c <- connected this;
  do c' <- (if negb c then ret true
            else do d <- connected other; ret (negb d));
  if (c' : bool) then ret VUndefined else
  do before <- internalStore this;
  do _ <- (if clean then modify this (with_store ∅) else ret tt);
  do src <- internalStore other;
  do _ <- for_each (map_to_list src).*1
            (fun key =>
               do cur <- internalStore other;
               assign this key (default VUndefined (cur !! key)));
  update this (Some before) (Some "copyFrom").

(** [constructor(uri, clean?, logger?)]; [node_env] is
    [process.env.NODE_ENV]. The logger only receives messages. *)
Definition constructor (address : string) (clean : bool)
    (node_env : option string) : M nat :=
  let address := normalize address in
  do this <- alloc {| cleanUri := cleanUri_of address; inDevMode := false;
                      uri := address; keyv := None; store := ∅;
                      connected_ := false |};
  do _ <- (if bool_decide (node_env = Some "development") then
             do _ <- modify this (with_inDevMode true);
             log Warn "Loading %s in development mode. Data will be fetched once but not updated."
           else ret tt);
  do _ <- connect this;
  do _ <- (if clean then do _ <- clear this; ret tt else ret tt);
  ret this.

(** *** The event loop

    A pending reaction runs when its backend promise settles, fulfilled
    ([ok = true]) or rejected; synchronous code is never interrupted. *)

(** [if (action)]: an omitted or empty label is falsy. *)
Definition labelled (action : option string) : bool :=
  match action with
  | Some a => negb (bool_decide (a = ""))
  | None => false
  end.

(** The [.catch] callback of [update]. Its last statement,
    [failed = true], writes a local of a call that has returned. *)
Definition on_write_rejected (this : nat) (before : option mirror)
    (action : option string) : M unit :=
  do _ <- (if labelled action
           then log Error "Failed to execute %s on %s" else ret tt);
  match before with
  | Some b =>
      do _ <- (if labelled action
               then log Warn "Reverting to state before %s" else ret tt);
      modify this (with_store b)
  | None => ret tt
  end.

(** Modelled from the spec: a fulfilled [set(handle, "store", value)] of
    the backend leaves [value] as the persisted record of the address. *)
Definition persist (h : Keyv) (payload : mirror) : M unit :=
  fun w => (Normal tt, with_backend (<[kv_uri h := payload]> (backend w)) w).

(** Modelled from the spec: a fulfilled [get(handle, "store")] of the
    backend yields the persisted record of the address, if any. *)
Definition load (h : Keyv) : M (option mirror) :=
  fun w => (Normal (backend w !! kv_uri h), w).

(** The rest of [connect]:
    [const data = (await ...) ?? {}; this.connected_ = true;
     this.store = data;] *)
Definition after_load (this : nat) (h : Keyv) : M unit :=
  do r <- load h;
  let data := default ∅ r in
  do _ <- modify this (with_connected_ true);
  modify this (with_store data).

(** The [.finally] callback of [disconnect]. *)
Definition after_close (this : nat) : M unit :=
  do _ <- log Debug "Disconnected from";
  do _ <- modify this (with_store ∅);
  modify this (with_connected_ false).

Definition settle (t : task) (ok : bool) : M unit :=
  match t with
  | PersistWrite this h payload before action =>
      if ok then persist h payload
      else on_write_rejected this before action
  | LoadRead this h => if ok then after_load this h else ret tt
  | CloseHandle this => after_close this
  end.

(** One turn of the loop: the [i]-th pending reaction settles. *)
Definition turn (i : nat) (ok : bool) : M unit :=
  fun w => match queue w !! i with
           | Some t => settle t ok (with_queue (base.delete i (queue w)) w)
           | None => (Normal tt, w)
           end.

End Store.

Import Store.

(** ** Definitions used by the statements *)

(** [this.connected] as a function of the fields. *)
Definition live (o : obj) : bool :=
  connected_ o && bool_decide (keyv o <> None).

(** The mirror of an instance in a world. *)
Definition mirror_of (w : World) (this : nat) : option mirror :=
  store <$> objects w !! this.

(** The backend writes [update] issues on an instance in state [o]. *)
Definition issued (this : nat) (o : obj) (before : option mirror)
    (action : option string) : list task :=
  if inDevMode o then []
  else match keyv o with
       | Some h => [PersistWrite this h (store o) before action]
       | None => []
       end.

(** The world after a method left [this] in state [o] and called
    [update(before, action)]. *)
Definition commit (this : nat) (o : obj) (before : option mirror)
    (action : option string) (w : World) : World :=
  with_queue (queue w ++ issued this o before action)
    (with_objects (<[this := o]> (objects w)) w).

(** The mirror after the loop body ran on the pairs [l] of the template. *)
Definition reconcile_fold (m : mirror) (l : list (string * value)) : mirror :=
  foldl (fun m kv =>
           if bool_decide (is_Some (m !! kv.1)) then m else <[kv.1 := kv.2]> m)
        m l.

(** The mirror after the loop body copied the keys [keys] of [src]. *)
Definition copy_fold (src base : mirror) (keys : list string) : mirror :=
  foldl (fun m key => <[key := default VUndefined (src !! key)]> m) base keys.

(** A call of one of the operations, with its arguments. *)
Inductive call : Type :=
| CHas (key : string)
| CGet (key : string) (fallback : value)
| CSet (key : string) (v : value)
| CDelete (key : string)
| CReconcile (template : mirror)
| CClear
| CCopyKey (other : nat) (key : string) (fallback : value)
| CCopyFrom (other : nat) (clean : bool)
| CAddListener (event : string)
| CUpdate (before : option mirror) (action : option string).

Definition invoke (c : call) (this : nat) : M value :=
  match c with
  | CHas key => has this key
  | CGet key fallback => get this key fallback
  | CSet key v => set this key v
  | CDelete key => delete this key
  | CReconcile template => reconcile this template
  | CClear => clear this
  | CCopyKey other key fallback => copyKey this other key fallback
  | CCopyFrom other clean => copyFrom this other clean
  | CAddListener event => addListener this event
  | CUpdate before action => update this before action
  end.

(** The mutations: [set], [delete], [reconcile], [clear], [copyFrom]. *)
Definition mutation (c : call) : bool :=
  match c with
  | CSet _ _ | CDelete _ | CReconcile _ | CClear | CCopyFrom _ _ => true
  | _ => false
  end.

(** The label a mutation passes to [update]: [set] and [delete] pass
    none. *)
Definition action_of (c : call) : option string :=
  match c with
  | CReconcile _ => Some "reconcile"
  | CClear => Some "clear"
  | CCopyFrom _ _ => Some "copyFrom"
  | _ => None
  end.

(** Two states of one instance with the same address, identity and
    mode: the fields the class declares [readonly]. *)
Definition same_identity (o o' : obj) : Prop :=
  uri o' = uri o /\ cleanUri o' = cleanUri o /\ inDevMode o' = inDevMode o.

(** No instance appeared, disappeared or changed its [readonly] fields. *)
Definition identities_kept (w w' : World) : Prop :=
  forall i, option_Forall2 same_identity (objects w !! i) (objects w' !! i).

(** What a synchronous call may do to the world: keep the persisted
    records, add to the pending reactions, keep the identities. *)
Definition stable (w w' : World) : Prop :=
  backend w' = backend w
  /\ (exists ts, queue w' = (queue w ++ ts)%list)
  /\ identities_kept w w'.

(** The computation [m] relates every world to the one it leaves by [R]. *)
Definition keeps (R : World -> World -> Prop) {A} (m : M A) : Prop :=
  forall w, R w (m w).2.

Definition empty_world : World :=
  {| objects := ∅; backend := ∅; queue := []; console := [] |}.

(** [new Store(address)], and the load of [connect] completing. *)
Definition boot (address : string) (node_env : option string) : M nat :=
  do this <- constructor address false node_env;
  do _ <- turn 0 true;
  ret this.

(** One connected store, holding ["a" -> 1]. *)
Definition sample_world : World :=
  ((do this <- boot "db/store" None;
    do _ <- set this "a" (VNum 1);
    do _ <- turn 0 true;
    ret this) empty_world).2.

Definition sample_obj : obj :=
  {| cleanUri := "db/store"; inDevMode := false;
     uri := "sqlite://db/store.sqlite";
     keyv := Some (new_Keyv "sqlite://db/store.sqlite");
     store := {["a" := VNum 1]}; connected_ := true |}.

(** A store right after [new Store("db/store")]: the load is pending. *)
Definition fresh_world : World := (constructor "db/store" false None empty_world).2.

Definition fresh_obj : obj :=
  {| cleanUri := "db/store"; inDevMode := false;
     uri := "sqlite://db/store.sqlite";
     keyv := Some (new_Keyv "sqlite://db/store.sqlite");
     store := ∅; connected_ := false |}.

(** Two connected stores: the first holds ["y" -> 2], the second
    ["x" -> 1]; both writes are still pending. *)
Definition two_world : World :=
  ((do a <- boot "db/a" None;
    do b <- boot "db/b" None;
    do _ <- set b "x" (VNum 1);
    do _ <- set a "y" (VNum 2);
    ret tt) empty_world).2.

Definition two_obj (name : string) (m : mirror) : obj :=
  {| cleanUri := "db/" ++ name; inDevMode := false;
     uri := "sqlite://db/" ++ name ++ ".sqlite";
     keyv := Some (new_Keyv ("sqlite://db/" ++ name ++ ".sqlite"));
     store := m; connected_ := true |}.





(** The instance [new Store(address, clean)] creates. *)
Definition constructed (address : string) (node_env : option string) : obj :=
  {| cleanUri := cleanUri_of (normalize address);
     inDevMode := bool_decide (node_env = Some "development");
     uri := normalize address;
     keyv := Some (new_Keyv (normalize address));
     store := ∅;
     connected_ := false |}.

(** What the constructor logs. *)
Definition construction_log (node_env : option string)
    : list (level * string) :=
  (if bool_decide (node_env = Some "development")
   then [(Warn, "Loading %s in development mode. Data will be fetched once but not updated.")]
   else []) ++ [(Debug, "Connected to")].

(** ** Sanity checks of the address normalisation *)

Example normalize_plain : normalize "db/store" = "sqlite://db/store.sqlite".
Proof. reflexivity. Qed.

Example cleanUri_plain : cleanUri_of (normalize "db/store") = "db/store".
Proof. reflexivity. Qed.

Example normalize_short : normalize ".sqlite" = "sqlite://.sqlite".
Proof. reflexivity. Qed.

(** ** Sanity checks of the class *)

(** Section 8 of the specification: [storeA.set("x", 1)], then
    [storeB.copyKey(storeA, "x")] is [true] and [storeB.get("x")] is [1]. *)
Example copyKey_scenario :
  ((do a <- boot "db/a" None;
    do b <- boot "db/b" None;
    do _ <- set a "x" (VNum 1);
    do r1 <- copyKey b a "x" VUndefined;
    do r2 <- get b "x" VUndefined;
    ret (r1, r2)) empty_world).1
  = Normal (VBool true, VNum 1).
Proof. vm_compute. reflexivity. Qed.

(** The docstring of [disconnect]: [true], then [undefined]; after it
    [get] is refused. *)
Example disconnect_twice :
  ((do a <- boot "db/a" None;
    do r1 <- disconnect a;
    do r2 <- disconnect a;
    do r3 <- get a "x" VUndefined;
    ret (r1, r2, r3)) empty_world).1
  = Normal (VBool true, VUndefined, VUndefined).
Proof. vm_compute. reflexivity. Qed.

(** Section 8 of the specification: with the backend write failing,
    [set("k", "v")] leaves no key "k" once the rejection is handled. *)
Example failed_set_leaves_no_key :
  mirror_of
    ((do a <- boot "db/a" None;
      do _ <- set a "k" (VStr "v");
      turn 0 false) empty_world).2 0%nat
  = Some ∅.
Proof. vm_compute. reflexivity. Qed.

(** ** What a call does to a connected instance *)

Lemma with_queue_nil w : with_queue (queue w ++ []) w = w.
Proof. destruct w. unfold with_queue. simpl. by rewrite app_nil_r. Qed.

Lemma with_store_id o : with_store (store o) o = o.
Proof. by destruct o. Qed.

Lemma with_objects_id w this o :
  objects w !! this = Some o ->
  with_objects (<[this := o]> (objects w)) w = w.
Proof. intros H. destruct w. unfold with_objects. simpl in *. by rewrite insert_id. Qed.

Lemma live_keyv o : live o = true -> exists h, keyv o = Some h.
Proof.
  unfold live. intros [_ H%bool_decide_eq_true]%andb_true_iff.
  destruct (keyv o); [eauto | done].
Qed.

Section Runs.
Variables (w : World) (this : nat) (o : obj).
Hypothesis Hthis : objects w !! this = Some o.

Lemma connected_run : connected this w = (Normal (live o), w).
Proof. unfold connected, bind, self, ret. by rewrite Hthis. Qed.

Lemma internalStore_run : internalStore this w = (Normal (store o), w).
Proof. unfold internalStore, bind, self, ret. by rewrite Hthis. Qed.

Lemma read_run key :
  read this key w = (Normal (default VUndefined (store o !! key)), w).
Proof. unfold read, bind, self, ret. by rewrite Hthis. Qed.

Lemma modify_run f :
  modify this f w = (Normal tt, with_objects (<[this := f o]> (objects w)) w).
Proof. unfold modify. by rewrite Hthis. Qed.

Hypothesis Hlive : live o = true.

Lemma has_run key :
  has this key w
  = (Normal (VBool (bool_decide (is_Some (store o !! key)))), w).
Proof.
  unfold has, bind. rewrite connected_run, Hlive. simpl.
  unfold self, ret. by rewrite Hthis.
Qed.

Lemma update_run before action :
  update this before action w
  = (Normal (VBool true),
     with_queue (queue w ++ issued this o before action) w).
Proof.
  unfold update, bind. rewrite connected_run, Hlive. simpl.
  unfold self. rewrite Hthis. unfold issued.
  destruct (inDevMode o).
  - unfold ret. by rewrite with_queue_nil.
  - destruct (live_keyv o Hlive) as [h ->]. reflexivity.
Qed.
End Runs.

(** A mutation followed by [update]: the shape shared by [set], [delete],
    [clear], [reconcile] and [copyFrom]. *)
Lemma mutate_update_run w this o f before action :
  objects w !! this = Some o -> live o = true ->
  (do _ <- modify this (fun o => with_store (f (store o)) o);
   update this before action) w
  = (Normal (VBool true),
     commit this (with_store (f (store o)) o) before action w).
Proof.
  intros Hthis Hl. unfold bind at 1. rewrite (modify_run _ _ _ Hthis).
  erewrite update_run; [reflexivity | simpl; apply lookup_insert_eq | done].
Qed.

Lemma set_run w this o key v :
  objects w !! this = Some o -> live o = true ->
  set this key v w
  = (Normal (VBool true),
     commit this (with_store (<[key := v]> (store o)) o)
       (Some (store o)) None w).
Proof.
  intros Hthis Hl. unfold set, bind at 1.
  rewrite (connected_run _ _ _ Hthis), Hl. simpl.
  unfold bind at 1. rewrite (internalStore_run _ _ _ Hthis).
  unfold assign.
  apply (mutate_update_run w this o (fun m => <[key := v]> m)); done.
Qed.

Lemma delete_present_run w this o key :
  objects w !! this = Some o -> live o = true ->
  is_Some (store o !! key) ->
  delete this key w
  = (Normal (VBool true),
     commit this (with_store (base.delete key (store o)) o)
       (Some (store o)) None w).
Proof.
  intros Hthis Hl Hk. unfold delete, bind at 1.
  rewrite (connected_run _ _ _ Hthis), Hl. simpl.
  unfold bind at 1. rewrite (has_run _ _ _ Hthis Hl).
  rewrite bool_decide_eq_true_2 by done. simpl.
  unfold bind at 1. rewrite (internalStore_run _ _ _ Hthis).
  apply (mutate_update_run w this o (fun m => base.delete key m)); done.
Qed.

Lemma delete_absent_run w this o key :
  objects w !! this = Some o -> live o = true ->
  store o !! key = None ->
  delete this key w = (Normal VNull, w).
Proof.
  intros Hthis Hl Hk. unfold delete, bind at 1.
  rewrite (connected_run _ _ _ Hthis), Hl. simpl.
  unfold bind at 1. rewrite (has_run _ _ _ Hthis Hl).
  rewrite bool_decide_eq_false_2; [done |].
  rewrite Hk. by intros [? ?].
Qed.

Lemma clear_run w this o :
  objects w !! this = Some o -> live o = true ->
  clear this w
  = (Normal (VBool true),
     commit this (with_store ∅ o) (Some (store o)) (Some "clear")
       (with_console (console w ++ [(Debug, "Clearing")]) w)).
Proof.
  intros Hthis Hl. unfold clear, bind at 1.
  rewrite (connected_run _ _ _ Hthis), Hl. simpl.
  unfold bind at 1, log. unfold bind at 1.
  rewrite (internalStore_run _ this o) by done.
  apply (mutate_update_run _ this o (fun _ => ∅)); done.
Qed.

(** *** The loop of [reconcile] *)

Lemma reconcile_fold_lookup l (m : mirror) k :
  reconcile_fold m l !! k
  = match m !! k with
    | Some x => Some x
    | None => (list_to_map l : mirror) !! k
    end.
Proof.
  revert m. induction l as [|[k0 v0] l IH]; intros m; simpl.
  - destruct (m !! k); [done | by rewrite lookup_empty].
  - rewrite IH. case_bool_decide as Hk0.
    + destruct (m !! k) eqn:Hk; [done |].
      rewrite lookup_insert_ne; [done |]. intros ->.
      rewrite Hk in Hk0. by destruct Hk0.
    + apply eq_None_not_Some in Hk0.
      destruct (decide (k0 = k)) as [->|Hne].
      * by rewrite Hk0, !lookup_insert_eq.
      * by rewrite !lookup_insert_ne.
Qed.

Lemma reconcile_fold_union (m template : mirror) :
  reconcile_fold m (map_to_list template) = m ∪ template.
Proof.
  apply map_eq. intros k.
  rewrite reconcile_fold_lookup, list_to_map_to_list, lookup_union.
  by destruct (m !! k), (template !! k).
Qed.

Lemma reconcile_loop_run l : forall w this o,
  objects w !! this = Some o -> live o = true ->
  for_each l
    (fun kv => do h <- has this kv.1;
               if negb (truthy h) then assign this kv.1 kv.2 else ret tt) w
  = (Normal tt,
     with_objects
       (<[this := with_store (reconcile_fold (store o) l) o]> (objects w)) w).
Proof.
  induction l as [|[k0 v0] l IH]; intros w this o Hthis Hl.
  - simpl. unfold ret. by rewrite with_store_id, with_objects_id.
  - cbn [for_each]. unfold bind at 1. unfold bind at 1.
    rewrite (has_run _ _ _ Hthis Hl). cbn [truthy fst snd reconcile_fold foldl].
    case_bool_decide as Hk0; cbn [negb].
    + unfold ret at 1. by apply IH.
    + unfold assign. rewrite (modify_run _ _ _ Hthis).
      erewrite IH; [| simpl; apply lookup_insert_eq | done].
      unfold with_objects. simpl. by rewrite insert_insert_eq.
Qed.

Lemma reconcile_run w this o template :
  objects w !! this = Some o -> live o = true ->
  reconcile this template w
  = (Normal (VBool true),
     commit this (with_store (store o ∪ template) o) (Some (store o))
       (Some "reconcile")
       (with_console
          (console w ++ [(Debug, "Reconciling %s with template")]) w)).
Proof.
  intros Hthis Hl. unfold reconcile, bind at 1.
  rewrite (connected_run _ _ _ Hthis), Hl. simpl.
  unfold bind at 1, log. unfold bind at 1.
  rewrite (internalStore_run _ this o) by done.
  unfold bind at 1.
  rewrite (reconcile_loop_run _ _ this o) by done.
  rewrite reconcile_fold_union.
  erewrite update_run; [reflexivity | simpl; apply lookup_insert_eq | done].
Qed.

(** *** The loop of [copyFrom] *)

Lemma copy_fold_lookup keys (src base : mirror) k :
  copy_fold src base keys !! k
  = if decide (k ∈ keys) then Some (default VUndefined (src !! k))
    else base !! k.
Proof.
  revert base. induction keys as [|k0 keys IH]; intros base.
  - by rewrite decide_False by apply not_elem_of_nil.
  - change (copy_fold src base (k0 :: keys))
      with (copy_fold src (<[k0 := default VUndefined (src !! k0)]> base) keys).
    rewrite IH. destruct (decide (k ∈ keys)) as [Hin|Hin].
    + by rewrite decide_True by (by right).
    + destruct (decide (k = k0)) as [->|Hne].
      * by rewrite decide_True, lookup_insert_eq by left.
      * rewrite decide_False, lookup_insert_ne; [done | done |].
        by intros [?|?]%elem_of_cons.
Qed.

Lemma elem_of_keys (src : mirror) k :
  k ∈ (map_to_list src).*1 <-> is_Some (src !! k).
Proof.
  rewrite list_elem_of_fmap. split.
  - intros [[k' v] [-> Hin%elem_of_map_to_list]]. eauto.
  - intros [v Hv]. exists (k, v). split; [done |].
    by apply elem_of_map_to_list.
Qed.

Lemma copy_fold_union (src base : mirror) :
  copy_fold src base (map_to_list src).*1 = src ∪ base.
Proof.
  apply map_eq. intros k. rewrite copy_fold_lookup, lookup_union.
  destruct (decide (k ∈ (map_to_list src).*1)) as [Hin|Hin].
  - apply elem_of_keys in Hin as [v Hv]. rewrite Hv. simpl.
    by destruct (base !! k).
  - rewrite elem_of_keys in Hin. apply eq_None_not_Some in Hin.
    rewrite Hin. by destruct (base !! k).
Qed.

Lemma copy_loop_run keys : forall w this other o o2,
  this <> other ->
  objects w !! this = Some o -> objects w !! other = Some o2 ->
  for_each keys
    (fun key => do cur <- internalStore other;
                assign this key (default VUndefined (cur !! key))) w
  = (Normal tt,
     with_objects
       (<[this := with_store (copy_fold (store o2) (store o) keys) o]>
          (objects w)) w).
Proof.
  induction keys as [|k0 keys IH]; intros w this other o o2 Hne Hthis Hother.
  - simpl. unfold ret. by rewrite with_store_id, with_objects_id.
  - cbn [for_each]. unfold bind at 1. unfold bind at 1.
    rewrite (internalStore_run _ _ _ Hother).
    unfold assign. rewrite (modify_run _ _ _ Hthis).
    erewrite (IH _ this other _ o2);
      [| done | simpl; apply lookup_insert_eq
       | simpl; by rewrite lookup_insert_ne].
    unfold with_objects. simpl. by rewrite insert_insert_eq.
Qed.

(** With [store === this] the loop rewrites each key with its own value. *)
Lemma copy_self_loop_run keys : forall w this o,
  objects w !! this = Some o ->
  (forall k, k ∈ keys -> is_Some (store o !! k)) ->
  for_each keys
    (fun key => do cur <- internalStore this;
                assign this key (default VUndefined (cur !! key))) w
  = (Normal tt, w).
Proof.
  induction keys as [|k0 keys IH]; intros w this o Hthis Hkeys.
  - reflexivity.
  - cbn [for_each]. unfold bind at 1. unfold bind at 1.
    rewrite (internalStore_run _ _ _ Hthis).
    unfold assign. rewrite (modify_run _ _ _ Hthis).
    destruct (Hkeys k0) as [v Hv]; [by left |].
    rewrite Hv. simpl. rewrite (insert_id (store o)) by done.
    rewrite with_store_id, with_objects_id by done.
    apply (IH w this o); [done |]. intros k Hk. apply Hkeys. by right.
Qed.

Lemma copyFrom_run w this other o o2 clean :
  this <> other ->
  objects w !! this = Some o -> objects w !! other = Some o2 ->
  live o = true -> live o2 = true ->
  copyFrom this other clean w
  = (Normal (VBool true),
     commit this
       (with_store (store o2 ∪ (if clean then ∅ else store o)) o)
       (Some (store o)) (Some "copyFrom") w).
Proof.
  intros Hne Hthis Hother Hl Hl2. unfold copyFrom, bind at 1.
  rewrite (connected_run _ _ _ Hthis), Hl. cbn [negb].
  unfold bind at 1. unfold bind at 1.
  rewrite (connected_run _ _ _ Hother), Hl2. cbn [negb ret].
  unfold bind at 1. rewrite (internalStore_run _ _ _ Hthis).
  unfold bind at 1. destruct clean.
  - rewrite (modify_run _ _ _ Hthis).
    unfold bind at 1.
    rewrite (internalStore_run _ other o2)
      by (simpl; by rewrite lookup_insert_ne).
    unfold bind at 1.
    rewrite (copy_loop_run _ _ this other (with_store ∅ o) o2);
      [| done | simpl; apply lookup_insert_eq
       | simpl; by rewrite lookup_insert_ne].
    cbn [store with_store]. rewrite copy_fold_union.
    erewrite update_run; [| simpl; apply lookup_insert_eq | done].
    unfold commit, with_objects. simpl. by rewrite !insert_insert_eq.
  - unfold ret at 1. unfold bind at 1.
    rewrite (internalStore_run _ _ _ Hother). unfold bind at 1.
    rewrite (copy_loop_run _ _ this other o o2) by done.
    rewrite copy_fold_union.
    erewrite update_run; [reflexivity | simpl; apply lookup_insert_eq | done].
Qed.

(** [store.copyFrom(store, clean)]: the source is the object being wiped. *)
Lemma copyFrom_self_run w this o clean :
  objects w !! this = Some o -> live o = true ->
  copyFrom this this clean w
  = (Normal (VBool true),
     commit this (with_store (if clean then ∅ else store o) o)
       (Some (store o)) (Some "copyFrom") w).
Proof.
  intros Hthis Hl. unfold copyFrom, bind at 1.
  rewrite (connected_run _ _ _ Hthis), Hl. cbn [negb].
  unfold bind at 1. unfold bind at 1.
  rewrite (connected_run _ _ _ Hthis), Hl. cbn [negb ret].
  unfold bind at 1. rewrite (internalStore_run _ _ _ Hthis).
  unfold bind at 1. destruct clean.
  - rewrite (modify_run _ _ _ Hthis).
    unfold bind at 1.
    rewrite (internalStore_run _ this (with_store ∅ o))
      by (simpl; apply lookup_insert_eq).
    cbn [store with_store]. rewrite map_to_list_empty. cbn [fmap list_fmap for_each].
    unfold bind at 1, ret at 1.
    erewrite update_run; [reflexivity | simpl; apply lookup_insert_eq | done].
  - unfold ret at 1. unfold bind at 1.
    rewrite (internalStore_run _ _ _ Hthis). unfold bind at 1.
    rewrite (copy_self_loop_run _ _ this o);
      [| done | by intros k Hk%elem_of_keys].
    rewrite (update_run _ _ _ Hthis Hl).
    unfold commit. by rewrite with_store_id, with_objects_id.
Qed.

(** *** [get] on a connected instance *)

Lemma get_present_run w this o key v fallback :
  objects w !! this = Some o -> live o = true ->
  store o !! key = Some v ->
  get this key fallback w = (Normal v, w).
Proof.
  intros Hthis Hl Hk. unfold get, bind at 1.
  rewrite (connected_run _ _ _ Hthis), Hl. cbn [negb].
  unfold bind at 1. rewrite (has_run _ _ _ Hthis Hl).
  rewrite bool_decide_eq_true_2 by (by rewrite Hk).
  cbn [truthy negb]. unfold bind at 1, ret at 1.
  by rewrite (read_run _ _ _ Hthis), Hk.
Qed.



(** *** Calls on an instance that is not connected *)

Lemma refused w this o c :
  objects w !! this = Some o -> live o = false ->
  invoke c this w = (Normal NotConnected, w).
Proof.
  intros Hthis Hl.
  destruct c; cbn [invoke];
    unfold has, get, set, delete, reconcile, clear, copyKey, copyFrom,
      addListener, update;
    unfold bind at 1; rewrite (connected_run _ _ _ Hthis), Hl; reflexivity.
Qed.

(** [copyFrom] when the other store is not connected. *)
Lemma copyFrom_other_refused w this other o o2 clean :
  objects w !! this = Some o -> live o = true ->
  objects w !! other = Some o2 -> live o2 = false ->
  copyFrom this other clean w = (Normal NotConnected, w).
Proof.
  intros Hthis Hl Hother Hl2. unfold copyFrom, bind at 1.
  rewrite (connected_run _ _ _ Hthis), Hl. cbn [negb].
  unfold bind at 1. unfold bind at 1.
  by rewrite (connected_run _ _ _ Hother), Hl2.
Qed.

(** [copyFrom] with a reference that names no instance. *)
Lemma copyFrom_other_dangling w this other o clean :
  objects w !! this = Some o -> live o = true ->
  objects w !! other = None ->
  copyFrom this other clean w = (Abrupt, w).
Proof.
  intros Hthis Hl Hother. unfold copyFrom, bind at 1.
  rewrite (connected_run _ _ _ Hthis), Hl. cbn [negb].
  unfold bind at 1. unfold bind at 1.
  unfold connected, bind, self. by rewrite Hother.
Qed.

Lemma with_console_id w : with_console (console w) w = w.
Proof. by destruct w. Qed.

(** What a mutation does, in every case: nothing at all, or the new mirror
    is installed and [update] is called once with the old one. *)
Lemma mutation_cases c w this o :
  mutation c = true -> objects w !! this = Some o ->
  (exists r, invoke c this w = (r, w)
             /\ r <> Normal Failure /\ r <> Normal Success)
  \/ (exists m a l,
        live o = true
        /\ invoke c this w
           = (Normal Success,
              commit this (with_store m o) (Some (store o)) a
                (with_console l w))).
Proof.
  intros Hm Hthis. destruct (live o) eqn:Hl.
  2:{ left. exists (Normal NotConnected).
      by rewrite (refused _ _ _ _ Hthis Hl). }
  destruct c; try discriminate Hm; cbn [invoke].
  - right. exists (<[key := v]> (store o)), None, (console w).
    by rewrite with_console_id, (set_run _ _ _ _ _ Hthis Hl).
  - destruct (store o !! key) eqn:Hk.
    + right. exists (base.delete key (store o)), None, (console w).
      rewrite with_console_id.
      by rewrite (delete_present_run _ _ _ _ Hthis Hl) by (by rewrite Hk).
    + left. exists (Normal VNull).
      by rewrite (delete_absent_run _ _ _ _ Hthis Hl Hk).
  - right. eexists _, _, _. split; [done |].
    by rewrite (reconcile_run _ _ _ _ Hthis Hl).
  - right. eexists _, _, _. split; [done |].
    by rewrite (clear_run _ _ _ Hthis Hl).
  - destruct (decide (this = other)) as [<-|Hne].
    { right. eexists _, _, (console w). split; [done |].
      by rewrite with_console_id, (copyFrom_self_run _ _ _ _ Hthis Hl). }
    destruct (objects w !! other) as [o2|] eqn:Hother.
    2:{ left. exists Abrupt.
        by rewrite (copyFrom_other_dangling _ _ _ _ _ Hthis Hl Hother). }
    destruct (live o2) eqn:Hl2.
    + right. eexists _, _, (console w). split; [done |].
      by rewrite with_console_id,
        (copyFrom_run _ _ _ _ _ _ Hne Hthis Hother Hl Hl2).
    + left. exists (Normal NotConnected).
      by rewrite (copyFrom_other_refused _ _ _ _ _ _ Hthis Hl Hother Hl2).
Qed.

(** *** Turns of the event loop *)

Lemma turn_last w (q : list task) t ok :
  queue w = (q ++ [t])%list ->
  turn (length q) ok w = settle t ok (with_queue q w).
Proof.
  intros Hq. unfold turn. rewrite Hq, list_lookup_middle by done.
  by rewrite delete_middle, app_nil_r.
Qed.

Lemma on_write_rejected_run w this o b a :
  objects w !! this = Some o ->
  on_write_rejected this (Some b) a w
  = (Normal tt,
     with_objects (<[this := with_store b o]> (objects w))
       (with_console
          (console w ++
             if labelled a
             then [(Error, "Failed to execute %s on %s");
                   (Warn, "Reverting to state before %s")]
             else []) w)).
Proof.
  intros Hthis. unfold on_write_rejected. destruct (labelled a).
  - unfold bind, log. simpl. unfold modify. simpl. rewrite Hthis.
    unfold with_objects, with_console. simpl. by rewrite <- app_assoc.
  - unfold bind, ret. rewrite (modify_run _ _ _ Hthis).
    unfold with_objects, with_console. simpl. by rewrite app_nil_r.
Qed.

Lemma rejected_write_mirror w this h payload b a :
  is_Some (objects w !! this) ->
  mirror_of (settle (PersistWrite this h payload (Some b) a) false w).2 this
  = Some b.
Proof.
  intros [o Hthis]. cbn [settle]. rewrite (on_write_rejected_run _ _ _ _ _ Hthis).
  unfold mirror_of. simpl. by rewrite lookup_insert_eq.
Qed.

Lemma fulfilled_write_run w h this payload before action :
  settle (PersistWrite this h payload before action) true w
  = (Normal tt, with_backend (<[kv_uri h := payload]> (backend w)) w).
Proof. reflexivity. Qed.

Example sample_world_store : objects sample_world !! 0%nat = Some sample_obj.
Proof. vm_compute. reflexivity. Qed.

(** ** Rollback *)

(** C1. When a mutation ([set], [delete], [reconcile], [clear], [copyFrom])
    has issued its backend write, that write carries the mirror of before
    the mutation as its snapshot, and once the write is rejected and its
    handler has run, the mirror is that snapshot again: right after the
    call, and in any later world as well. All keys a [reconcile] or
    [copyFrom] added go at once. *)
Theorem failed_write_restores_mirror c w this o t :
  mutation c = true ->
  objects w !! this = Some o ->
  queue (invoke c this w).2 = (queue w ++ [t])%list ->
  (exists h payload action,
     t = PersistWrite this h payload (Some (store o)) action)
  /\ mirror_of (turn (length (queue w)) false (invoke c this w).2).2 this
     = Some (store o)
  /\ (forall w', is_Some (objects w' !! this) ->
        mirror_of (settle t false w').2 this = Some (store o)).
Proof.
  intros Hm Hthis Hq.
  destruct (mutation_cases c w this o Hm Hthis)
    as [(r & Hrun & _) | (m & a & l & Hl & Hrun)].
  - rewrite Hrun in Hq. simpl in Hq.
    apply (f_equal length) in Hq. rewrite length_app in Hq. simpl in Hq. lia.
  - rewrite Hrun in Hq |- *. cbn [snd] in *.
    assert (exists h, t = PersistWrite this h m (Some (store o)) a) as [h ->].
    { unfold commit in Hq. simpl in Hq. apply app_inv_head in Hq.
      unfold issued in Hq. simpl in Hq.
      destruct (inDevMode o); [discriminate |].
      destruct (keyv o) as [h|]; [| discriminate].
      exists h. by injection Hq as <-. }
    split; [by eauto |]. split.
    + erewrite (turn_last _ (queue w)) by exact Hq.
      apply rejected_write_mirror. simpl. rewrite lookup_insert_eq. eauto.
    + intros w' Hw'. by apply rejected_write_mirror.
Qed.

Lemma failed_write_restores_mirror_witness :
  mirror_of
    (turn 0 false (invoke (CReconcile {["b" := VNum 2]}) 0%nat sample_world).2).2
    0%nat
  = Some {["a" := VNum 1]}.
Proof.
  refine (proj1 (proj2 (failed_write_restores_mirror
    (CReconcile {["b" := VNum 2]}) sample_world 0%nat sample_obj
    (PersistWrite 0%nat (new_Keyv "sqlite://db/store.sqlite")
       {["a" := VNum 1; "b" := VNum 2]} (Some {["a" := VNum 1]})
       (Some "reconcile")) _ _ _))).
  - reflexivity.
  - vm_compute. reflexivity.
  - vm_compute. reflexivity.
Defined.

(** ** Refusal while disconnected *)

(** C2. On an instance that is not connected, each of [has], [get], [set],
    [delete], [reconcile], [clear], [copyKey], [copyFrom], [addListener]
    and [update] returns [undefined] normally (nothing is thrown) and
    leaves the whole world, the mirror included, as it was; and [undefined]
    is neither [null] (not found) nor a boolean. *)
Theorem disconnected_refusal c w this o :
  objects w !! this = Some o ->
  live o = false ->
  invoke c this w = (Normal NotConnected, w)
  /\ mirror_of (invoke c this w).2 this = Some (store o)
  /\ NotConnected <> NotFound
  /\ (forall b, NotConnected <> VBool b).
Proof.
  intros Hthis Hl. rewrite (refused _ _ _ _ Hthis Hl).
  repeat split; [| done | done].
  unfold mirror_of. simpl. by rewrite Hthis.
Qed.

Lemma disconnected_refusal_witness :
  invoke (CSet "k" (VNum 1)) 0%nat fresh_world = (Normal NotConnected, fresh_world).
Proof.
  refine (proj1 (disconnected_refusal (CSet "k" (VNum 1)) fresh_world 0%nat
                   fresh_obj _ _)).
  - vm_compute. reflexivity.
  - reflexivity.
Defined.

(** ** The result of [update] *)



(** ** [get] *)




(** ** Bulk operations *)

(** The write a call leaves pending, and what its rejection restores. *)
Lemma commit_pending w this o1 before a :
  live o1 = true ->
  (inDevMode o1 = true ->
     queue (commit this o1 (Some before) a w) = queue w)
  /\ (inDevMode o1 = false ->
        (exists h,
           queue (commit this o1 (Some before) a w)
           = (queue w ++ [PersistWrite this h (store o1) (Some before) a])%list)
        /\ mirror_of
             (turn (length (queue w)) false
                (commit this o1 (Some before) a w)).2 this
           = Some before).
Proof.
  intros Hl. unfold commit, issued. split; intros Hdev; rewrite Hdev; simpl.
  - by rewrite app_nil_r.
  - destruct (live_keyv o1 Hl) as [h Hh]. rewrite Hh. split; [by eauto |].
    erewrite (turn_last _ (queue w)) by reflexivity.
    apply rejected_write_mirror. simpl. rewrite lookup_insert_eq. eauto.
Qed.



(** C6, as stated, fails when the store is copied onto itself:
    [store.copyFrom(store, true)] returns [true] and leaves the mirror
    empty, since the object iterated is the one just wiped. *)
Lemma copyFrom_self_wipe_counterexample :
  ~ (forall w this other o o2,
       objects w !! this = Some o -> objects w !! other = Some o2 ->
       live o = true -> live o2 = true ->
       (copyFrom this other true w).1 = Normal Success ->
       mirror_of (copyFrom this other true w).2 this = Some (store o2)).
Proof.
  intros H.
  specialize (H sample_world 0%nat 0%nat sample_obj sample_obj
                sample_world_store sample_world_store eq_refl eq_refl).
  rewrite (copyFrom_self_run _ _ _ _ sample_world_store eq_refl) in H.
  specialize (H eq_refl). unfold mirror_of in H. simpl in H.
  rewrite lookup_insert_eq in H. simpl in H. apply (inj Some) in H.
  apply (f_equal (fun m : mirror => m !! "a")) in H.
  by rewrite lookup_empty, lookup_singleton_eq in H.
Qed.

(** C6, amended. For two different connected stores,
    [copyFrom(other, true)] returns [true] and leaves this store's mirror
    equal to the other's, which is unchanged. The copy goes through one
    [update]: in development mode no write is issued, otherwise exactly
    one, carrying the old mirror, and its rejection puts the old mirror
    back. *)
Theorem copyFrom_wipe_copies_other w this other o o2 :
  this <> other ->
  objects w !! this = Some o ->
  objects w !! other = Some o2 ->
  live o = true ->
  live o2 = true ->
  (copyFrom this other true w).1 = Normal Success
  /\ mirror_of (copyFrom this other true w).2 this = Some (store o2)
  /\ mirror_of (copyFrom this other true w).2 other = Some (store o2)
  /\ (inDevMode o = true ->
        queue (copyFrom this other true w).2 = queue w)
  /\ (inDevMode o = false ->
        (exists h,
           queue (copyFrom this other true w).2
           = (queue w ++ [PersistWrite this h (store o2) (Some (store o))
                            (Some "copyFrom")])%list)
        /\ mirror_of
             (turn (length (queue w)) false
                (copyFrom this other true w).2).2 this
           = Some (store o)).
Proof.
  intros Hne Hthis Hother Hl Hl2.
  rewrite (copyFrom_run _ _ _ _ _ _ Hne Hthis Hother Hl Hl2).
  rewrite (right_id_L ∅ (∪)). cbn [fst snd].
  split; [done |]. split; [| split].
  - unfold mirror_of. simpl. by rewrite lookup_insert_eq.
  - unfold mirror_of. simpl. by rewrite lookup_insert_ne, Hother.
  - exact (commit_pending w this (with_store (store o2) o) (store o)
             (Some "copyFrom") Hl).
Qed.

Example two_world_first :
  objects two_world !! 0%nat = Some (two_obj "a" {["y" := VNum 2]}).
Proof. vm_compute. reflexivity. Qed.

Example two_world_second :
  objects two_world !! 1%nat = Some (two_obj "b" {["x" := VNum 1]}).
Proof. vm_compute. reflexivity. Qed.

Lemma copyFrom_wipe_copies_other_witness :
  (copyFrom 0%nat 1%nat true two_world).1 = Normal Success
  /\ mirror_of (copyFrom 0%nat 1%nat true two_world).2 0%nat
     = Some {["x" := VNum 1]}.
Proof.
  destruct (copyFrom_wipe_copies_other two_world 0%nat 1%nat
              (two_obj "a" {["y" := VNum 2]}) (two_obj "b" {["x" := VNum 1]})
              ltac:(discriminate) two_world_first two_world_second
              eq_refl eq_refl)
    as (Hr & Hm & _).
  split; [exact Hr | exact Hm].
Defined.

(** ** The set / get / delete scenario *)




(** ** Development mode *)






(** ** Construction *)

(** [connect], up to its [await], on an instance whose [connected_] flag
    is down: [addListener] is refused, the load is left pending. *)
Lemma connect_run w this o :
  objects w !! this = Some o -> connected_ o = false ->
  connect this w
  = (Normal tt,
     with_queue (queue w ++ [LoadRead this (new_Keyv (uri o))])
       (with_console (console w ++ [(Debug, "Connected to")])
          (with_objects
             (<[this := with_keyv (Some (new_Keyv (uri o))) o]> (objects w))
             w))).
Proof.
  intros Hthis Hc. unfold connect, bind at 1, self. rewrite Hthis.
  unfold bind at 1. rewrite (modify_run _ _ _ Hthis).
  unfold bind at 1, log. unfold bind at 1.
  change (addListener this "error")
    with (invoke (CAddListener "error") this).
  erewrite refused; [reflexivity | simpl; apply lookup_insert_eq |].
  unfold live. simpl. by rewrite Hc.
Qed.

Lemma constructor_run address clean node_env w :
  constructor address clean node_env w
  = (Normal (fresh (dom (objects w))),
     with_queue
       (queue w ++ [LoadRead (fresh (dom (objects w)))
                      (new_Keyv (normalize address))])
       (with_console (console w ++ construction_log node_env)
          (with_objects
             (<[fresh (dom (objects w)) := constructed address node_env]>
                (objects w)) w))).
Proof.
  unfold constructor. unfold bind at 1, alloc.
  set (this := fresh (dom (objects w))).
  set (o0 := {| cleanUri := cleanUri_of (normalize address);
                inDevMode := false; uri := normalize address;
                keyv := None; store := ∅; connected_ := false |}).
  set (w0 := with_objects (<[this := o0]> (objects w)) w).
  assert (objects w0 !! this = Some o0) as H0
    by (simpl; apply lookup_insert_eq).
  unfold bind at 1. unfold construction_log, constructed.
  case_bool_decide as Hdev.
  - unfold bind at 1. rewrite (modify_run _ _ _ H0). unfold log at 1.
    cbv beta iota. unfold bind at 1.
    erewrite connect_run; [| simpl; apply lookup_insert_eq | done].
    unfold bind at 1. destruct clean.
    + unfold bind at 1.
      change (clear this) with (invoke CClear this).
      erewrite refused; [| simpl; apply lookup_insert_eq | reflexivity].
      unfold ret, with_queue, with_console, with_objects. simpl.
      by rewrite !insert_insert_eq, <- app_assoc.
    + unfold ret, with_queue, with_console, with_objects. simpl.
      by rewrite !insert_insert_eq, <- app_assoc.
  - unfold ret at 1. unfold bind at 1.
    erewrite connect_run; [| exact H0 | done].
    unfold bind at 1. destruct clean.
    + unfold bind at 1.
      change (clear this) with (invoke CClear this).
      erewrite refused; [| simpl; apply lookup_insert_eq | reflexivity].
      unfold ret, with_queue, with_console, with_objects. simpl.
      by rewrite !insert_insert_eq.
    + unfold ret, with_queue, with_console, with_objects. simpl.
      by rewrite !insert_insert_eq.
Qed.

(** C9. The wipe-on-start flag changes nothing: [new Store(address, true)]
    and [new Store(address, false)] return the same reference and leave
    the same world (instances, persisted records, pending reactions, log).
    When the constructor reaches [clear()] the instance is not connected,
    its load being still pending, so that [clear()] returns [undefined]
    and does nothing. *)
Theorem constructor_clean_flag_is_inert address node_env w :
  constructor address true node_env w = constructor address false node_env w
  /\ (exists this w1 o,
        constructor address true node_env w = (Normal this, w1)
        /\ objects w1 !! this = Some o
        /\ live o = false
        /\ store o = ∅
        /\ backend w1 = backend w
        /\ In (LoadRead this (new_Keyv (normalize address))) (queue w1)
        /\ clear this w1 = (Normal NotConnected, w1)).
Proof.
  rewrite !constructor_run. split; [done |].
  eexists _, _, (constructed address node_env).
  split; [reflexivity |].
  assert (forall w1 this,
            objects w1 !! this = Some (constructed address node_env) ->
            clear this w1 = (Normal NotConnected, w1)) as Hclear.
  { intros w1 this Hthis.
    by apply (refused w1 this (constructed address node_env) CClear). }
  repeat split.
  - simpl. apply lookup_insert_eq.
  - simpl. apply in_or_app. right. by left.
  - apply Hclear. simpl. apply lookup_insert_eq.
Qed.

(** ** The address *)

Section Address.
Local Open Scope list_scope.
Local Open Scope nat_scope.
Import JsString.

Lemma units_app (s1 s2 : string) :
  units (s1 ++ s2)%string = units s1 ++ units s2.
Proof. induction s1 as [|c s1 IH]; simpl; [done | by rewrite IH]. Qed.

Lemma units_inj (s1 s2 : string) : units s1 = units s2 -> s1 = s2.
Proof.
  intros H. rewrite <- (string_of_list_ascii_of_string s1),
    <- (string_of_list_ascii_of_string s2). unfold units in H. by rewrite H.
Qed.

Lemma startsWith_spec (s p : string) :
  startsWith s p = true <-> exists l, units s = units p ++ l.
Proof.
  unfold startsWith. rewrite bool_decide_eq_true. split.
  - intros H. exists (drop (length (units p)) (units s)).
    rewrite <- H at 1. by rewrite take_drop.
  - intros [l ->]. by rewrite take_app_length.
Qed.

Lemma endsWith_spec (s p : string) :
  endsWith s p = true <-> exists l, units s = l ++ units p.
Proof.
  unfold endsWith. rewrite bool_decide_eq_true. split.
  - intros H. exists (take (length (units s) - length (units p)) (units s)).
    rewrite <- H at 2. by rewrite take_drop.
  - intros [l ->]. rewrite length_app.
    by rewrite drop_app_length' by lia.
Qed.

Lemma normalize_ends (address : string) :
  endsWith (normalize address) extension = true.
Proof.
  unfold normalize.
  assert (endsWith
            (if negb (endsWith address extension)
             then (address ++ extension)%string else address)
            extension = true) as H1.
  { destruct (endsWith address extension) eqn:He; simpl; [done |].
    apply endsWith_spec. exists (units address). apply units_app. }
  destruct (negb (startsWith _ scheme)); [| done].
  apply endsWith_spec in H1 as [l Hl]. apply endsWith_spec.
  exists (units scheme ++ l). by rewrite units_app, Hl, app_assoc.
Qed.

Lemma normalize_starts (address : string) :
  startsWith (normalize address) scheme = true.
Proof.
  unfold normalize.
  set (u1 := if negb (endsWith address extension)
             then (address ++ extension)%string else address).
  destruct (startsWith u1 scheme) eqn:Hs; simpl; [done |].
  apply startsWith_spec. eexists. apply units_app.
Qed.

Lemma normalize_fixed (s : string) :
  endsWith s extension = true -> startsWith s scheme = true ->
  normalize s = s.
Proof. intros He Hs. unfold normalize. rewrite He. simpl. by rewrite Hs. Qed.

(** The scheme has no dot, so it cannot overlap the extension. *)
Lemma scheme_extension_apart (l l' : list ascii) :
  units scheme ++ l = l' ++ units extension ->
  exists mid, l = mid ++ units extension.
Proof.
  intros H. destruct (decide (9 <= length l')) as [Hlen|Hlen].
  - exists (drop 9 l').
    apply (f_equal (drop 9)) in H.
    rewrite (drop_app_length' (units scheme)) in H by reflexivity.
    by rewrite drop_app_le in H.
  - exfalso.
    assert ((units scheme ++ l) !! length l' = Some "."%char) as Hdot
      by (rewrite H; by apply list_lookup_middle).
    rewrite lookup_app_l in Hdot by (simpl; lia).
    revert Hdot Hlen. generalize (length l'). intros n.
    do 9 (destruct n as [|n]; [discriminate |]). simpl. lia.
Qed.

Lemma normalize_shape (address : string) :
  exists mid : list ascii,
    units (normalize address) = units scheme ++ mid ++ units extension.
Proof.
  destruct (proj1 (startsWith_spec _ _) (normalize_starts address))
    as [l Hl].
  destruct (proj1 (endsWith_spec _ _) (normalize_ends address))
    as [l' Hl'].
  destruct (scheme_extension_apart l l') as [mid ->]; [congruence |].
  by exists mid.
Qed.

Lemma slice_strips (mid : list ascii) (s : string) :
  units s = units scheme ++ mid ++ units extension ->
  slice s 9 (-7) = of_units mid.
Proof.
  intros Hs. unfold slice, clamp. rewrite Hs, !length_app. simpl length.
  change (9 <? 0)%Z with false. change (-7 <? 0)%Z with true.
  cbv beta iota. f_equal.
  replace (Z.to_nat (Z.min 9 _)) with 9 by lia.
  rewrite (drop_app_length' (units scheme)) by reflexivity.
  apply take_app_length'. lia.
Qed.
End Address.

(** C10. Whatever the address, the normalised uri ends with ".sqlite" and
    starts with "sqlite://"; normalising it again changes nothing; and it
    is the scheme (9 characters), then [cleanUri], then the extension
    (7 characters). *)
Theorem normalize_uri_shape address :
  JsString.endsWith (normalize address) extension = true
  /\ JsString.startsWith (normalize address) scheme = true
  /\ normalize (normalize address) = normalize address
  /\ normalize address = scheme ++ cleanUri_of (normalize address) ++ extension
  /\ String.length scheme = 9%nat
  /\ String.length extension = 7%nat.
Proof.
  split; [apply normalize_ends |]. split; [apply normalize_starts |].
  split; [apply normalize_fixed; [apply normalize_ends | apply normalize_starts] |].
  split; [| done].
  destruct (normalize_shape address) as [mid Hmid].
  unfold cleanUri_of. rewrite (slice_strips mid) by done.
  apply units_inj. rewrite !units_app, Hmid.
  unfold JsString.units at 4, JsString.of_units.
  by rewrite list_ascii_of_string_of_list_ascii.
Qed.

(** ** The connection lifecycle *)

Lemma addListener_run w this o h event :
  objects w !! this = Some o -> live o = true -> keyv o = Some h ->
  addListener this event w
  = (Normal (VBool true),
     with_objects
       (<[this := with_keyv
                    (Some {| kv_uri := kv_uri h;
                             kv_listeners := kv_listeners h ++ [event] |}) o]>
          (objects w)) w).
Proof.
  intros Hthis Hl Hh. unfold addListener, bind at 1.
  rewrite (connected_run _ _ _ Hthis), Hl. cbn [negb].
  unfold bind at 1, self. rewrite Hthis, Hh.
  unfold bind. by rewrite (modify_run _ _ _ Hthis).
Qed.

Lemma disconnect_run w this o :
  objects w !! this = Some o -> live o = true ->
  disconnect this w
  = (Normal (VBool true),
     with_objects (<[this := with_keyv None o]> (objects w))
       (with_queue (queue w ++ [CloseHandle this]) w)).
Proof.
  intros Hthis Hl. unfold disconnect, bind at 1.
  rewrite (connected_run _ _ _ Hthis), Hl. cbn [negb].
  unfold bind at 1, self. rewrite Hthis.
  destruct (live_keyv o Hl) as [h ->].
  unfold bind at 1, spawn. unfold bind.
  by erewrite modify_run by exact Hthis.
Qed.

Lemma disconnect_refused w this o :
  objects w !! this = Some o -> live o = false ->
  disconnect this w = (Normal NotConnected, w).
Proof.
  intros Hthis Hl. unfold disconnect, bind at 1.
  by rewrite (connected_run _ _ _ Hthis), Hl.
Qed.

Lemma after_close_run w this o :
  objects w !! this = Some o ->
  after_close this w
  = (Normal tt,
     with_objects
       (<[this := with_connected_ false (with_store ∅ o)]> (objects w))
       (with_console (console w ++ [(Debug, "Disconnected from")]) w)).
Proof.
  intros Hthis. unfold after_close, bind at 1, log. unfold bind.
  erewrite modify_run by exact Hthis.
  erewrite modify_run by (simpl; apply lookup_insert_eq).
  unfold with_objects. simpl. by rewrite insert_insert_eq.
Qed.

Lemma after_load_run w this o h :
  objects w !! this = Some o ->
  after_load this h w
  = (Normal tt,
     with_objects
       (<[this := with_store (default ∅ (backend w !! kv_uri h))
                    (with_connected_ true o)]> (objects w)) w).
Proof.
  intros Hthis. unfold after_load, bind at 1, load. unfold bind.
  erewrite modify_run by exact Hthis.
  erewrite modify_run by (simpl; apply lookup_insert_eq).
  unfold with_objects. simpl. by rewrite insert_insert_eq.
Qed.

(** [connect], up to its [await], whatever the [connected_] flag: with the
    flag up (a close is still pending) the new handle counts as connected
    at once and gets the error listener. *)
Lemma connect_run_any w this o :
  objects w !! this = Some o ->
  connect this w
  = (Normal tt,
     with_queue (queue w ++ [LoadRead this (new_Keyv (uri o))])
       (with_console (console w ++ [(Debug, "Connected to")])
          (with_objects
             (<[this := with_keyv
                          (Some {| kv_uri := uri o;
                                   kv_listeners :=
                                     if connected_ o then ["error"] else [] |})
                          o]> (objects w))
             w))).
Proof.
  intros Hthis. destruct (connected_ o) eqn:Hc.
  - unfold connect, bind at 1, self. rewrite Hthis.
    unfold bind at 1. rewrite (modify_run _ _ _ Hthis).
    unfold bind at 1, log. unfold bind at 1.
    erewrite (addListener_run _ this _ (new_Keyv (uri o)));
      [| simpl; apply lookup_insert_eq
       | unfold live; simpl; by rewrite Hc
       | reflexivity].
    unfold spawn, with_queue, with_console, with_objects. simpl.
    by rewrite insert_insert_eq.
  - by rewrite (connect_run _ _ _ Hthis Hc).
Qed.

Lemma reconnect_live_run w this o :
  objects w !! this = Some o -> live o = true ->
  reconnect this w = (Normal (VBool true), w).
Proof.
  intros Hthis Hl. unfold reconnect, bind at 1.
  by rewrite (connected_run _ _ _ Hthis), Hl.
Qed.

Lemma reconnect_run w this o :
  objects w !! this = Some o -> live o = false ->
  reconnect this w
  = (Normal (VBool true),
     with_queue (queue w ++ [LoadRead this (new_Keyv (uri o))])
       (with_console
          (console w ++ [(Debug, "Reconnecting to"); (Debug, "Connected to")])
          (with_objects
             (<[this := with_keyv
                          (Some {| kv_uri := uri o;
                                   kv_listeners :=
                                     if connected_ o then ["error"] else [] |})
                          o]> (objects w))
             w))).
Proof.
  intros Hthis Hl. unfold reconnect, bind at 1.
  rewrite (connected_run _ _ _ Hthis), Hl.
  unfold bind at 1, log. unfold bind at 1.
  erewrite connect_run_any by exact Hthis.
  unfold ret, with_queue, with_console, with_objects. simpl.
  by rewrite <- app_assoc.
Qed.

(** X1. [disconnect()] on a connected instance returns [true] and detaches
    the handle at once: from then on every operation, a second
    [disconnect()] included, is refused with [undefined], although the
    mirror is still held in memory and the close is only pending. Nothing
    is written to the backend. *)
Theorem disconnect_detaches_at_once w this o :
  objects w !! this = Some o ->
  live o = true ->
  (disconnect this w).1 = Normal Success
  /\ mirror_of (disconnect this w).2 this = Some (store o)
  /\ (forall c,
        invoke c this (disconnect this w).2
        = (Normal NotConnected, (disconnect this w).2))
  /\ disconnect this (disconnect this w).2
     = (Normal NotConnected, (disconnect this w).2)
  /\ queue (disconnect this w).2 = (queue w ++ [CloseHandle this])%list
  /\ backend (disconnect this w).2 = backend w.
Proof.
  intros Hthis Hl. rewrite (disconnect_run _ _ _ Hthis Hl). cbn [fst snd].
  set (w1 := with_objects _ _).
  assert (objects w1 !! this = Some (with_keyv None o)) as H1
    by (simpl; apply lookup_insert_eq).
  assert (live (with_keyv None o) = false) as Hl1.
  { unfold live. simpl. apply andb_false_r. }
  split; [done |]. split; [by unfold mirror_of; rewrite H1 |].
  split; [intros c; by apply (refused _ _ (with_keyv None o)) |].
  split; [by apply (disconnect_refused _ _ (with_keyv None o)) |]. done.
Qed.

Lemma disconnect_detaches_at_once_witness :
  invoke (CGet "a" VUndefined) 0%nat (disconnect 0%nat sample_world).2
  = (Normal NotConnected, (disconnect 0%nat sample_world).2).
Proof.
  exact (proj1 (proj2 (proj2 (disconnect_detaches_at_once sample_world 0%nat
                                sample_obj sample_world_store eq_refl)))
           (CGet "a" VUndefined)).
Defined.

(** X2. Once the close issued by [disconnect()] has settled, whether it
    succeeded or not, the mirror is empty and the [connected_] flag is
    down; the persisted records are as before, so the emptiness is not
    written back. *)
Theorem close_empties_the_mirror w this o ok :
  objects w !! this = Some o ->
  live o = true ->
  mirror_of (turn (length (queue w)) ok (disconnect this w).2).2 this
  = Some ∅
  /\ connected_ <$>
       objects (turn (length (queue w)) ok (disconnect this w).2).2 !! this
     = Some false
  /\ queue (turn (length (queue w)) ok (disconnect this w).2).2 = queue w
  /\ backend (turn (length (queue w)) ok (disconnect this w).2).2
     = backend w.
Proof.
  intros Hthis Hl. rewrite (disconnect_run _ _ _ Hthis Hl). cbn [snd].
  erewrite (turn_last _ (queue w)) by reflexivity. cbn [settle].
  erewrite after_close_run by (simpl; apply lookup_insert_eq).
  unfold mirror_of. simpl. by rewrite !lookup_insert_eq.
Qed.

Lemma close_empties_the_mirror_witness :
  mirror_of (turn 0 false (disconnect 0%nat sample_world).2).2 0%nat = Some ∅.
Proof.
  exact (proj1 (close_empties_the_mirror sample_world 0%nat sample_obj false
                  sample_world_store eq_refl)).
Defined.

(** X3. A full cycle: [disconnect()], the close settling, [reconnect()],
    the load being fulfilled. [reconnect()] returns [true] before the load
    completes; at the end the instance is connected again, on the same
    address and in the same mode, and its mirror is the persisted record of
    its address (empty if there is none): whatever the mirror held that was
    not persisted is gone. *)
Theorem reconnect_cycle_reloads w this o ok :
  objects w !! this = Some o ->
  live o = true ->
  exists w' o',
    (do _ <- disconnect this;
     do _ <- turn (length (queue w)) ok;
     do r <- reconnect this;
     do _ <- turn (length (queue w)) true;
     ret r) w = (Normal Success, w')
    /\ objects w' !! this = Some o'
    /\ live o' = true
    /\ store o' = default ∅ (backend w !! uri o)
    /\ uri o' = uri o
    /\ inDevMode o' = inDevMode o
    /\ queue w' = queue w
    /\ backend w' = backend w.
Proof.
  intros Hthis Hl. unfold bind at 1.
  rewrite (disconnect_run _ _ _ Hthis Hl). unfold bind at 1.
  erewrite (turn_last _ (queue w)) by reflexivity. cbn [settle].
  erewrite after_close_run by (simpl; apply lookup_insert_eq).
  unfold bind at 1.
  erewrite reconnect_run; [| simpl; apply lookup_insert_eq | reflexivity].
  unfold bind at 1.
  erewrite (turn_last _ (queue w)) by reflexivity. cbn [settle].
  erewrite after_load_run by (simpl; apply lookup_insert_eq).
  eexists _, _. split; [reflexivity |].
  split; [simpl; apply lookup_insert_eq |]. done.
Qed.

Lemma reconnect_cycle_reloads_witness :
  exists w' o',
    (do _ <- disconnect 0%nat;
     do _ <- turn 0 true;
     do r <- reconnect 0%nat;
     do _ <- turn 0 true;
     ret r) sample_world = (Normal Success, w')
    /\ objects w' !! 0%nat = Some o'
    /\ live o' = true
    /\ store o' = {["a" := VNum 1]}.
Proof.
  destruct (reconnect_cycle_reloads sample_world 0%nat sample_obj true
              sample_world_store eq_refl)
    as (w' & o' & Hrun & Ho' & Hl' & Hs' & _).
  exists w', o'. split; [exact Hrun |]. split; [exact Ho' |].
  split; [exact Hl' |]. rewrite Hs'. vm_compute. reflexivity.
Defined.

(** X4. [reconnect()] right after [disconnect()], before the close has
    settled: the [connected_] flag is still up, so the instance is
    connected again at once, with its old mirror and a new handle that
    has the error listener. When the pending close then settles, its
    handler empties the mirror and takes the flag down, so the reconnected
    instance refuses every operation, until the load is fulfilled. *)
Theorem reconnect_before_close_races w this o ok :
  objects w !! this = Some o ->
  live o = true ->
  exists w1 o1,
    (do _ <- disconnect this; reconnect this) w = (Normal Success, w1)
    /\ objects w1 !! this = Some o1
    /\ live o1 = true
    /\ store o1 = store o
    /\ keyv o1 = Some {| kv_uri := uri o; kv_listeners := ["error"] |}
    /\ queue w1
       = (queue w ++ [CloseHandle this;
                      LoadRead this (new_Keyv (uri o))])%list
    /\ mirror_of (turn (length (queue w)) ok w1).2 this = Some ∅
    /\ (forall c,
          invoke c this (turn (length (queue w)) ok w1).2
          = (Normal NotConnected, (turn (length (queue w)) ok w1).2))
    /\ mirror_of
         ((do _ <- turn (length (queue w)) ok;
           turn (length (queue w)) true) w1).2 this
       = Some (default ∅ (backend w !! uri o)).
Proof.
  intros Hthis Hl. unfold bind at 1.
  rewrite (disconnect_run _ _ _ Hthis Hl).
  assert (connected_ o = true) as Hc
    by (unfold live in Hl; by apply andb_true_iff in Hl as [? _]).
  erewrite reconnect_run; [| simpl; apply lookup_insert_eq |].
  2:{ unfold live. simpl. apply andb_false_r. }
  cbn [connected_ with_keyv uri]. rewrite Hc.
  eexists _, _. split; [reflexivity |].
  split; [simpl; apply lookup_insert_eq |].
  split; [unfold live; simpl; by rewrite Hc |].
  split; [done |]. split; [done |].
  split; [simpl; by rewrite <- app_assoc |].
  assert (forall w1 : World,
            queue w1 = (queue w ++ [CloseHandle this;
                                    LoadRead this (new_Keyv (uri o))])%list ->
            turn (length (queue w)) ok w1
            = after_close this
                (with_queue
                   (queue w ++ [LoadRead this (new_Keyv (uri o))]) w1))
    as Hturn.
  { intros w1 Hq. unfold turn. rewrite Hq.
    rewrite list_lookup_middle by done. by rewrite delete_middle. }
  rewrite Hturn by (simpl; by rewrite <- app_assoc).
  erewrite after_close_run by (simpl; apply lookup_insert_eq).
  cbn [snd]. split; [| split].
  - unfold mirror_of. simpl. by rewrite lookup_insert_eq.
  - intros c. eapply refused; [simpl; apply lookup_insert_eq |].
    reflexivity.
  - unfold bind. rewrite Hturn by (simpl; by rewrite <- app_assoc).
    erewrite after_close_run by (simpl; apply lookup_insert_eq).
    erewrite (turn_last _ (queue w)) by reflexivity. cbn [settle].
    erewrite after_load_run by (simpl; apply lookup_insert_eq).
    unfold mirror_of. simpl. by rewrite lookup_insert_eq.
Qed.

Lemma reconnect_before_close_races_witness :
  exists w1 o1,
    (do _ <- disconnect 0%nat; reconnect 0%nat) sample_world
    = (Normal Success, w1)
    /\ objects w1 !! 0%nat = Some o1
    /\ live o1 = true
    /\ mirror_of (turn 0 true w1).2 0%nat = Some ∅.
Proof.
  destruct (reconnect_before_close_races sample_world 0%nat sample_obj true
              sample_world_store eq_refl)
    as (w1 & o1 & Hrun & Ho1 & Hl1 & _ & _ & _ & Hclose & _).
  exists w1, o1. repeat split; assumption.
Defined.

(** X5. After [new Store(address, clean)] and its load being fulfilled,
    the instance is connected, its mirror is the persisted record of the
    normalised address (empty if there is none), its mode is development
    exactly when [NODE_ENV] is "development", and no listener is
    registered on its handle: the error listener [connect] adds was
    refused, the instance not being connected yet. *)
Theorem construction_then_load address clean node_env w :
  exists this w' o,
    (do this <- constructor address clean node_env;
     do _ <- turn (length (queue w)) true;
     ret this) w = (Normal this, w')
    /\ objects w !! this = None
    /\ objects w' !! this = Some o
    /\ live o = true
    /\ store o = default ∅ (backend w !! normalize address)
    /\ uri o = normalize address
    /\ inDevMode o = bool_decide (node_env = Some "development")
    /\ keyv o = Some {| kv_uri := normalize address; kv_listeners := [] |}
    /\ queue w' = queue w
    /\ backend w' = backend w.
Proof.
  unfold bind at 1. rewrite constructor_run. unfold bind at 1.
  erewrite (turn_last _ (queue w)) by reflexivity. cbn [settle].
  erewrite after_load_run by (simpl; apply lookup_insert_eq).
  eexists _, _, _. split; [reflexivity |].
  split; [apply not_elem_of_dom, is_fresh |].
  split; [simpl; apply lookup_insert_eq |]. done.
Qed.

(** X6. If the load of [connect] is rejected, nothing after the [await]
    runs: the instance stays disconnected with an empty mirror, its load
    is no longer pending, and every operation on it is refused. *)
Theorem construction_load_rejected address clean node_env w :
  exists this w' o,
    (do this <- constructor address clean node_env;
     do _ <- turn (length (queue w)) false;
     ret this) w = (Normal this, w')
    /\ objects w' !! this = Some o
    /\ live o = false
    /\ store o = ∅
    /\ queue w' = queue w
    /\ (forall c, invoke c this w' = (Normal NotConnected, w')).
Proof.
  unfold bind at 1. rewrite constructor_run. unfold bind at 1.
  erewrite (turn_last _ (queue w)) by reflexivity. cbn [settle].
  eexists _, _, _. split; [reflexivity |].
  split; [simpl; apply lookup_insert_eq |].
  split; [done |]. split; [done |]. split; [done |].
  intros c. eapply refused; [simpl; apply lookup_insert_eq | done].
Qed.

(** ** [copyKey] *)

(** [copyKey] once both stores have passed the connected test. *)
Lemma copyKey_connected_run w this other o o2 key fallback :
  objects w !! this = Some o -> objects w !! other = Some o2 ->
  live o = true -> live o2 = true ->
  copyKey this other key fallback w
  = (do v <- get other key fallback;
     if bool_decide (v = VNull) then ret VNull else set this key v) w.
Proof.
  intros Hthis Hother Hl Hl2. unfold copyKey, bind at 1.
  rewrite (connected_run _ _ _ Hthis), Hl. cbn [negb].
  unfold bind at 1. unfold bind at 1.
  by rewrite (connected_run _ _ _ Hother), Hl2.
Qed.

(** X7. [copyKey(other, key)] between two different connected stores,
    when [other] holds a value other than [null] under [key]: it returns
    [true], this store holds that value under [key] and its other keys as
    before, [other] is untouched, and the fallback is ignored. The copy
    goes through one [update] of this store. *)
Theorem copyKey_copies_present w this other o o2 key v fallback :
  this <> other ->
  objects w !! this = Some o ->
  objects w !! other = Some o2 ->
  live o = true ->
  live o2 = true ->
  store o2 !! key = Some v ->
  v <> VNull ->
  copyKey this other key fallback w
  = (Normal Success,
     commit this (with_store (<[key := v]> (store o)) o) (Some (store o))
       None w)
  /\ mirror_of (copyKey this other key fallback w).2 this
     = Some (<[key := v]> (store o))
  /\ objects (copyKey this other key fallback w).2 !! other = Some o2
  /\ backend (copyKey this other key fallback w).2 = backend w.
Proof.
  intros Hne Hthis Hother Hl Hl2 Hk Hv.
  assert (copyKey this other key fallback w
          = (Normal Success,
             commit this (with_store (<[key := v]> (store o)) o)
               (Some (store o)) None w)) as ->.
  { rewrite (copyKey_connected_run _ _ _ _ _ _ _ Hthis Hother Hl Hl2).
    unfold bind. rewrite (get_present_run _ _ _ _ _ _ Hother Hl2 Hk).
    rewrite bool_decide_eq_false_2 by done.
    by rewrite (set_run _ _ _ _ _ Hthis Hl). }
  cbn [snd]. split; [done |]. split; [| split; [| done]].
  - unfold mirror_of. simpl. by rewrite lookup_insert_eq.
  - simpl. by rewrite lookup_insert_ne.
Qed.

Lemma copyKey_copies_present_witness :
  mirror_of (copyKey 0%nat 1%nat "x" VUndefined two_world).2 0%nat
  = Some (<["x" := VNum 1]> {["y" := VNum 2]}).
Proof.
  exact (proj1 (proj2 (copyKey_copies_present two_world 0%nat 1%nat
                         (two_obj "a" {["y" := VNum 2]})
                         (two_obj "b" {["x" := VNum 1]}) "x" (VNum 1)
                         VUndefined ltac:(discriminate) two_world_first
                         two_world_second eq_refl eq_refl eq_refl
                         ltac:(discriminate)))).
Defined.





(** X10. When this store is connected and the other is not, [copyKey] and
    [copyFrom] return [undefined] and leave the whole world as it was: the
    other store is not read, this store is not wiped. *)
Theorem other_disconnected_refusal w this other o o2 :
  objects w !! this = Some o ->
  objects w !! other = Some o2 ->
  live o = true ->
  live o2 = false ->
  (forall key fallback,
     copyKey this other key fallback w = (Normal NotConnected, w))
  /\ (forall clean, copyFrom this other clean w = (Normal NotConnected, w)).
Proof.
  intros Hthis Hother Hl Hl2. split.
  - intros key fallback. unfold copyKey, bind at 1.
    rewrite (connected_run _ _ _ Hthis), Hl. cbn [negb].
    unfold bind at 1. unfold bind at 1.
    by rewrite (connected_run _ _ _ Hother), Hl2.
  - intros clean.
    by apply (copyFrom_other_refused _ _ _ o o2).
Qed.

Lemma other_disconnected_refusal_witness :
  copyFrom 0%nat 1%nat true (disconnect 1%nat two_world).2
  = (Normal NotConnected, (disconnect 1%nat two_world).2).
Proof.
  refine (proj2 (other_disconnected_refusal (disconnect 1%nat two_world).2
                   0%nat 1%nat (two_obj "a" {["y" := VNum 2]})
                   (with_keyv None (two_obj "b" {["x" := VNum 1]}))
                   _ _ eq_refl eq_refl) true).
  - vm_compute. reflexivity.
  - vm_compute. reflexivity.
Defined.

(** ** Writes settling *)

(** [mutation_cases], with the label [update] receives. *)
Lemma mutation_cases_action c w this o :
  mutation c = true -> objects w !! this = Some o ->
  (exists r, invoke c this w = (r, w))
  \/ (exists m l,
        live o = true
        /\ invoke c this w
           = (Normal Success,
              commit this (with_store m o) (Some (store o)) (action_of c)
                (with_console l w))).
Proof.
  intros Hm Hthis. destruct (live o) eqn:Hl.
  2:{ left. exists (Normal NotConnected).
      by rewrite (refused _ _ _ _ Hthis Hl). }
  destruct c; try discriminate Hm; cbn [invoke action_of].
  - right. exists (<[key := v]> (store o)), (console w).
    by rewrite with_console_id, (set_run _ _ _ _ _ Hthis Hl).
  - destruct (store o !! key) eqn:Hk.
    + right. exists (base.delete key (store o)), (console w).
      rewrite with_console_id.
      by rewrite (delete_present_run _ _ _ _ Hthis Hl) by (by rewrite Hk).
    + left. exists (Normal VNull).
      by rewrite (delete_absent_run _ _ _ _ Hthis Hl Hk).
  - right. eexists _, _. split; [done |].
    by rewrite (reconcile_run _ _ _ _ Hthis Hl).
  - right. eexists _, _. split; [done |].
    by rewrite (clear_run _ _ _ Hthis Hl).
  - destruct (decide (this = other)) as [<-|Hne].
    { right. eexists _, (console w). split; [done |].
      by rewrite with_console_id, (copyFrom_self_run _ _ _ _ Hthis Hl). }
    destruct (objects w !! other) as [o2|] eqn:Hother.
    2:{ left. exists Abrupt.
        by rewrite (copyFrom_other_dangling _ _ _ _ _ Hthis Hl Hother). }
    destruct (live o2) eqn:Hl2.
    + right. eexists _, (console w). split; [done |].
      by rewrite with_console_id,
        (copyFrom_run _ _ _ _ _ _ Hne Hthis Hother Hl Hl2).
    + left. exists (Normal NotConnected).
      by rewrite (copyFrom_other_refused _ _ _ _ _ _ Hthis Hl Hother Hl2).
Qed.

(** A mutation that left a write pending: the write, and the world. *)
Lemma mutation_issued c w this o t :
  mutation c = true -> objects w !! this = Some o ->
  queue (invoke c this w).2 = (queue w ++ [t])%list ->
  exists m l h,
    live o = true /\ inDevMode o = false /\ keyv o = Some h
    /\ (invoke c this w).2
       = commit this (with_store m o) (Some (store o)) (action_of c)
           (with_console l w)
    /\ t = PersistWrite this h m (Some (store o)) (action_of c)
    /\ (invoke c this w).1 = Normal Success.
Proof.
  intros Hm Hthis Hq.
  destruct (mutation_cases_action c w this o Hm Hthis)
    as [(r & Hrun) | (m & l & Hl & Hrun)]; rewrite Hrun in Hq |- *.
  - simpl in Hq. apply (f_equal length) in Hq.
    rewrite length_app in Hq. simpl in Hq. lia.
  - cbn [snd] in *. unfold commit in Hq. simpl in Hq.
    apply app_inv_head in Hq. unfold issued in Hq. simpl in Hq.
    destruct (inDevMode o) eqn:Hdev; [discriminate |].
    destruct (keyv o) as [h|] eqn:Hh; [| discriminate].
    exists m, l, h. injection Hq as <-. done.
Qed.

(** X11. Write-through. When a mutation ([set], [delete], [reconcile],
    [clear], [copyFrom]) has issued its write and that write is fulfilled,
    the persisted record of the handle's address is the mirror the mutation
    left; fulfilment changes no instance, and the write is no longer
    pending. *)
Theorem fulfilled_write_persists_mirror c w this o t :
  mutation c = true ->
  objects w !! this = Some o ->
  queue (invoke c this w).2 = (queue w ++ [t])%list ->
  exists h,
    keyv o = Some h
    /\ backend (turn (length (queue w)) true (invoke c this w).2).2
         !! kv_uri h
       = mirror_of (invoke c this w).2 this
    /\ objects (turn (length (queue w)) true (invoke c this w).2).2
       = objects (invoke c this w).2
    /\ queue (turn (length (queue w)) true (invoke c this w).2).2 = queue w.
Proof.
  intros Hm Hthis Hq.
  destruct (mutation_issued c w this o t Hm Hthis Hq)
    as (m & l & h & Hl & Hdev & Hh & Hw1 & -> & _).
  exists h. split; [done |].
  erewrite (turn_last _ (queue w)) by exact Hq.
  rewrite fulfilled_write_run, Hw1. cbn [snd]. split; [| done].
  unfold mirror_of. simpl. by rewrite !lookup_insert_eq.
Qed.

Lemma fulfilled_write_persists_mirror_witness :
  backend (turn 0 true (invoke (CSet "b" (VNum 2)) 0%nat sample_world).2).2
    !! "sqlite://db/store.sqlite"
  = Some {["a" := VNum 1; "b" := VNum 2]}.
Proof.
  assert (queue (invoke (CSet "b" (VNum 2)) 0%nat sample_world).2
          = (queue sample_world
             ++ [PersistWrite 0%nat (new_Keyv "sqlite://db/store.sqlite")
                   {["a" := VNum 1; "b" := VNum 2]} (Some {["a" := VNum 1]})
                   None])%list) as Hq
    by (vm_compute; reflexivity).
  destruct (fulfilled_write_persists_mirror (CSet "b" (VNum 2)) sample_world
              0%nat sample_obj _ eq_refl sample_world_store Hq)
    as (h & Hh & Hb & _).
  injection Hh as <-. etransitivity; [exact Hb |].
  vm_compute. reflexivity.
Defined.

(** X12. What a rejected write logs. For [reconcile], [clear] and
    [copyFrom] the handler logs an error and a warning; for [set] and
    [delete], which pass no label to [update], it logs nothing: their
    rollback is silent. *)
Theorem rejected_write_log c w this o t :
  mutation c = true ->
  objects w !! this = Some o ->
  queue (invoke c this w).2 = (queue w ++ [t])%list ->
  console (turn (length (queue w)) false (invoke c this w).2).2
  = (console (invoke c this w).2
     ++ match c with
        | CSet _ _ | CDelete _ => []
        | _ => [(Error, "Failed to execute %s on %s");
                (Warn, "Reverting to state before %s")]
        end)%list.
Proof.
  intros Hm Hthis Hq.
  destruct (mutation_issued c w this o t Hm Hthis Hq)
    as (m & l & h & Hl & Hdev & Hh & Hw1 & -> & _).
  erewrite (turn_last _ (queue w)) by exact Hq.
  rewrite Hw1. cbn [settle].
  erewrite on_write_rejected_run by (simpl; apply lookup_insert_eq).
  destruct c; try discriminate Hm; reflexivity.
Qed.

Lemma rejected_write_log_witness :
  console (turn 0 false (invoke (CSet "b" (VNum 2)) 0%nat sample_world).2).2
  = console sample_world.
Proof.
  assert (queue (invoke (CSet "b" (VNum 2)) 0%nat sample_world).2
          = (queue sample_world
             ++ [PersistWrite 0%nat (new_Keyv "sqlite://db/store.sqlite")
                   {["a" := VNum 1; "b" := VNum 2]} (Some {["a" := VNum 1]})
                   None])%list) as Hq
    by (vm_compute; reflexivity).
  etransitivity.
  - exact (rejected_write_log (CSet "b" (VNum 2)) sample_world 0%nat
             sample_obj _ eq_refl sample_world_store Hq).
  - vm_compute. reflexivity.
Defined.



(** X14. A mutation ([set], [delete], [reconcile], [clear], [copyFrom])
    touches only its own instance: every other instance is as before, no
    instance appears or disappears, and the persisted records are not
    changed by the call itself. *)
Theorem mutation_frame c w this o :
  mutation c = true ->
  objects w !! this = Some o ->
  (forall i, i <> this ->
     objects (invoke c this w).2 !! i = objects w !! i)
  /\ dom (objects (invoke c this w).2) = dom (objects w)
  /\ backend (invoke c this w).2 = backend w.
Proof.
  intros Hm Hthis.
  destruct (mutation_cases_action c w this o Hm Hthis)
    as [(r & ->) | (m & l & _ & ->)]; [done |].
  cbn [snd]. split; [| split; [| done]].
  - intros i Hi. simpl. by rewrite lookup_insert_ne.
  - simpl. apply dom_insert_lookup_L. eauto.
Qed.

Lemma mutation_frame_witness :
  objects (invoke CClear 0%nat two_world).2 !! 1%nat
  = Some (two_obj "b" {["x" := VNum 1]}).
Proof.
  rewrite (proj1 (mutation_frame CClear two_world 0%nat
                    (two_obj "a" {["y" := VNum 2]}) eq_refl two_world_first)
             1%nat ltac:(discriminate)).
  exact two_world_second.
Defined.


(** ** How the operations compose *)




(** X17. [copyFrom(other)] without the wipe merges, the other store
    winning: between two different connected stores it returns [true],
    every key of [other] ends up in this mirror with [other]'s value, also
    where this store had a value of its own (unlike [reconcile]), and every
    key [other] lacks is as it was. [other] is untouched. *)
Theorem copyFrom_merge_overwrites w this other o o2 :
  this <> other ->
  objects w !! this = Some o ->
  objects w !! other = Some o2 ->
  live o = true ->
  live o2 = true ->
  (copyFrom this other false w).1 = Normal Success
  /\ (exists m,
        mirror_of (copyFrom this other false w).2 this = Some m
        /\ (forall k v, store o2 !! k = Some v -> m !! k = Some v)
        /\ (forall k, store o2 !! k = None -> m !! k = store o !! k))
  /\ objects (copyFrom this other false w).2 !! other = Some o2.
Proof.
  intros Hne Hthis Hother Hl Hl2.
  rewrite (copyFrom_run _ _ _ _ _ _ Hne Hthis Hother Hl Hl2). cbn [fst snd].
  split; [done |]. split.
  - exists (store o2 ∪ store o). split.
    + unfold mirror_of. simpl. by rewrite lookup_insert_eq.
    + split.
      * intros k v Hk. by apply lookup_union_Some_l.
      * intros k Hk. by apply lookup_union_r.
  - simpl. by rewrite lookup_insert_ne.
Qed.

Lemma copyFrom_merge_overwrites_witness :
  exists m,
    mirror_of (copyFrom 0%nat 1%nat false two_world).2 0%nat = Some m
    /\ m !! "x" = Some (VNum 1)
    /\ m !! "y" = Some (VNum 2).
Proof.
  destruct (copyFrom_merge_overwrites two_world 0%nat 1%nat
              (two_obj "a" {["y" := VNum 2]}) (two_obj "b" {["x" := VNum 1]})
              ltac:(discriminate) two_world_first two_world_second
              eq_refl eq_refl)
    as (_ & (m & Hm & Hin & Hout) & _).
  exists m. split; [exact Hm |]. split.
  - apply Hin. reflexivity.
  - rewrite Hout by reflexivity. reflexivity.
Defined.





(** X20. [update] takes the snapshot on trust. On a connected instance
    outside development mode, when the write of [update(before, action)]
    is rejected, the mirror becomes [before], whatever it is, and stays as
    it was when [before] is omitted: without a snapshot nothing is rolled
    back. *)
Theorem update_rollback_uses_given_snapshot w this o before action :
  objects w !! this = Some o ->
  live o = true ->
  inDevMode o = false ->
  mirror_of
    (turn (length (queue w)) false (update this before action w).2).2 this
  = Some (default (store o) before).
Proof.
  intros Hthis Hl Hdev. rewrite (update_run _ _ _ Hthis Hl). cbn [snd].
  destruct (live_keyv o Hl) as [h Hh].
  erewrite (turn_last _ (queue w));
    [| unfold issued; simpl; by rewrite Hdev, Hh].
  cbn [settle]. destruct before as [b|].
  - erewrite on_write_rejected_run by exact Hthis.
    unfold mirror_of. simpl. by rewrite lookup_insert_eq.
  - unfold on_write_rejected. destruct (labelled action);
      unfold bind, log, ret, mirror_of; simpl; by rewrite Hthis.
Qed.

Lemma update_rollback_uses_given_snapshot_witness :
  mirror_of (turn 0 false (update 0%nat None None sample_world).2).2 0%nat
  = Some {["a" := VNum 1]}.
Proof.
  exact (update_rollback_uses_given_snapshot sample_world 0%nat sample_obj
           None None sample_world_store eq_refl eq_refl).
Defined.

(** ** Bare addresses *)

Section BareAddress.
Local Open Scope list_scope.
Local Open Scope nat_scope.
Import JsString.

(** Appending the extension cannot complete the scheme. *)
Lemma startsWith_app_extension (a : string) :
  startsWith (a ++ extension)%string scheme = true ->
  startsWith a scheme = true.
Proof.
  intros [l Hl]%startsWith_spec. rewrite units_app in Hl.
  destruct (decide (9 <= length (units a))) as [Hlen|Hlen].
  - apply startsWith_spec. exists (drop 9 (units a)).
    apply (f_equal (take 9)) in Hl.
    rewrite take_app_le in Hl by done.
    rewrite (take_app_length' (units scheme)) in Hl by reflexivity.
    rewrite <- Hl. by rewrite take_drop.
  - exfalso.
    assert ((units scheme ++ l) !! length (units a) = Some "."%char) as Hdot
      by (rewrite <- Hl; by apply list_lookup_middle).
    rewrite lookup_app_l in Hdot by (simpl; lia).
    revert Hdot Hlen. generalize (length (units a)). intros n.
    do 9 (destruct n as [|n]; [discriminate |]). simpl. lia.
Qed.

(** Prepending the scheme cannot complete the extension. *)
Lemma endsWith_scheme_app (a : string) :
  endsWith (scheme ++ a)%string extension = true ->
  endsWith a extension = true.
Proof.
  intros [l Hl]%endsWith_spec. rewrite units_app in Hl.
  apply endsWith_spec. by apply (scheme_extension_apart _ l).
Qed.

Lemma append_assoc (s1 s2 s3 : string) :
  ((s1 ++ s2) ++ s3 = s1 ++ s2 ++ s3)%string.
Proof. apply units_inj. by rewrite !units_app, app_assoc. Qed.

End BareAddress.

(** X21. For an address that has neither the extension nor the scheme, the
    normalised uri is the scheme, the address and the extension, and
    [cleanUri] is the address as it was given. Such an address names the
    same store when it is written with the extension, with the scheme, or
    with both. *)
Theorem normalize_bare_address address :
  JsString.endsWith address extension = false ->
  JsString.startsWith address scheme = false ->
  normalize address = scheme ++ address ++ extension
  /\ cleanUri_of (normalize address) = address
  /\ normalize (address ++ extension) = normalize address
  /\ normalize (scheme ++ address) = normalize address
  /\ normalize (scheme ++ address ++ extension) = normalize address.
Proof.
  intros He Hs.
  assert (JsString.startsWith (address ++ extension) scheme = false) as Hs1.
  { destruct (JsString.startsWith (address ++ extension) scheme) eqn:H;
      [| done].
    apply startsWith_app_extension in H. congruence. }
  assert (JsString.endsWith (scheme ++ address) extension = false) as He1.
  { destruct (JsString.endsWith (scheme ++ address) extension) eqn:H;
      [| done].
    apply endsWith_scheme_app in H. congruence. }
  assert (normalize address = scheme ++ address ++ extension) as Hn.
  { unfold normalize. rewrite He. cbn [negb]. by rewrite Hs1. }
  split; [exact Hn |]. split; [| split; [| split]].
  - rewrite Hn. unfold cleanUri_of.
    rewrite (slice_strips (JsString.units address))
      by (by rewrite !units_app).
    apply string_of_list_ascii_of_string.
  - rewrite Hn. unfold normalize.
    assert (JsString.endsWith (address ++ extension) extension = true) as ->
      by (apply endsWith_spec; eexists; apply units_app).
    cbn [negb]. by rewrite Hs1.
  - rewrite Hn. unfold normalize. rewrite He1. cbn [negb].
    assert (JsString.startsWith ((scheme ++ address) ++ extension) scheme
            = true) as ->.
    { apply startsWith_spec. eexists. rewrite append_assoc. apply units_app. }
    cbn [negb]. apply append_assoc.
  - rewrite <- Hn.
    destruct (normalize_shape address) as [mid Hmid].
    apply normalize_fixed; [apply normalize_ends | apply normalize_starts].
Qed.

Lemma normalize_bare_address_witness :
  cleanUri_of (normalize "db/store") = "db/store"
  /\ normalize "sqlite://db/store" = normalize "db/store".
Proof.
  destruct (normalize_bare_address "db/store" eq_refl eq_refl)
    as (_ & Hc & _ & Hs & _).
  split; [exact Hc | exact Hs].
Defined.

(** ** Stores over one address *)

(** X22. [new Store(...)] returns a reference that named no instance
    before and disturbs nothing that exists: every instance is as it was,
    the persisted records are unchanged, and the pending reactions are the
    old ones followed by the load of the new instance. *)
Theorem constructor_frame address clean node_env w :
  exists this,
    (constructor address clean node_env w).1 = Normal this
    /\ objects w !! this = None
    /\ (forall i o,
          objects w !! i = Some o ->
          objects (constructor address clean node_env w).2 !! i = Some o)
    /\ backend (constructor address clean node_env w).2 = backend w
    /\ queue (constructor address clean node_env w).2
       = (queue w ++ [LoadRead this (new_Keyv (normalize address))])%list.
Proof.
  rewrite constructor_run. cbn [fst snd].
  exists (fresh (dom (objects w))).
  assert (objects w !! fresh (dom (objects w)) = None) as Hfresh
    by apply not_elem_of_dom, is_fresh.
  split; [done |]. split; [done |]. split; [| done].
  intros i o Hi. simpl. rewrite lookup_insert_ne; [done |].
  intros <-. congruence.
Qed.

(** X23. Persist, then load. When a mutation of a store has issued its
    write and that write is fulfilled, a store then constructed on an
    address that normalises to the same uri has, once its load is
    fulfilled, the same mirror as the first store: the one the mutation
    left. The two are different instances. *)
Theorem persisted_mirror_is_loaded c w this o t address clean node_env :
  mutation c = true ->
  objects w !! this = Some o ->
  queue (invoke c this w).2 = (queue w ++ [t])%list ->
  kv_uri <$> keyv o = Some (normalize address) ->
  exists that w',
    (do _ <- invoke c this;
     do _ <- turn (length (queue w)) true;
     do that <- constructor address clean node_env;
     do _ <- turn (length (queue w)) true;
     ret that) w = (Normal that, w')
    /\ that <> this
    /\ mirror_of w' that = mirror_of (invoke c this w).2 this
    /\ mirror_of w' this = mirror_of (invoke c this w).2 this.
Proof.
  intros Hm Hthis Hq Huri.
  destruct (mutation_issued c w this o t Hm Hthis Hq)
    as (m & l & h & Hl & Hdev & Hh & Hw1 & -> & Hr).
  rewrite Hh in Huri. injection Huri as Huri.
  assert (invoke c this w
          = (Normal Success,
             commit this (with_store m o) (Some (store o)) (action_of c)
               (with_console l w))) as Hrun.
  { rewrite <- Hw1, <- Hr. by destruct (invoke c this w). }
  unfold bind at 1. rewrite Hrun in Hq |- *. cbn [snd] in *.
  unfold bind at 1.
  erewrite (turn_last _ (queue w)) by exact Hq.
  rewrite fulfilled_write_run. unfold bind at 1.
  rewrite constructor_run. unfold bind at 1.
  erewrite (turn_last _ (queue w)) by reflexivity. cbn [settle].
  erewrite after_load_run by (simpl; apply lookup_insert_eq).
  set (that := fresh (dom (<[this := with_store m o]> (objects w)))).
  assert (that <> this) as Hne.
  { intros Heq. apply (is_fresh (dom (<[this := with_store m o]> (objects w)))).
    fold that. rewrite Heq. apply elem_of_dom. rewrite lookup_insert_eq.
    eauto. }
  eexists _, _. split; [reflexivity |]. split; [exact Hne |].
  unfold mirror_of. simpl. fold that.
  split.
  - rewrite !lookup_insert_eq. simpl.
    by rewrite <- Huri, lookup_insert_eq.
  - by rewrite !(lookup_insert_ne _ that this).
Qed.

Lemma persisted_mirror_is_loaded_witness :
  exists that w',
    (do _ <- invoke (CSet "b" (VNum 2)) 0%nat;
     do _ <- turn 0 true;
     do that <- constructor "db/store.sqlite" false None;
     do _ <- turn 0 true;
     ret that) sample_world = (Normal that, w')
    /\ that <> 0%nat
    /\ mirror_of w' that = Some {["a" := VNum 1; "b" := VNum 2]}.
Proof.
  assert (queue (invoke (CSet "b" (VNum 2)) 0%nat sample_world).2
          = (queue sample_world
             ++ [PersistWrite 0%nat (new_Keyv "sqlite://db/store.sqlite")
                   {["a" := VNum 1; "b" := VNum 2]} (Some {["a" := VNum 1]})
                   None])%list) as Hq
    by (vm_compute; reflexivity).
  destruct (persisted_mirror_is_loaded (CSet "b" (VNum 2)) sample_world
              0%nat sample_obj _ "db/store.sqlite" false None
              eq_refl sample_world_store Hq eq_refl)
    as (that & w' & Hrun & Hne & Hm & _).
  exists that, w'. split; [exact Hrun |]. split; [exact Hne |].
  rewrite Hm. vm_compute. reflexivity.
Defined.

(** X24. Listeners do not survive a reconnect. [addListener(event)] on a
    connected instance returns [true] and adds the event to the listeners
    of the current handle, leaving the mirror alone; after [disconnect()],
    the close settling, [reconnect()] and the load being fulfilled, the
    instance is connected through a new handle on which nothing is
    registered, not even the error listener of [connect]. *)
Theorem listeners_lost_on_reconnect w this o h event ok :
  objects w !! this = Some o ->
  live o = true ->
  keyv o = Some h ->
  (addListener this event w).1 = Normal Success
  /\ keyv <$> objects (addListener this event w).2 !! this
     = Some (Some {| kv_uri := kv_uri h;
                     kv_listeners := (kv_listeners h ++ [event])%list |})
  /\ mirror_of (addListener this event w).2 this = Some (store o)
  /\ queue (addListener this event w).2 = queue w
  /\ (exists w' o',
        (do _ <- addListener this event;
         do _ <- disconnect this;
         do _ <- turn (length (queue w)) ok;
         do _ <- reconnect this;
         turn (length (queue w)) true) w = (Normal tt, w')
        /\ objects w' !! this = Some o'
        /\ live o' = true
        /\ keyv o' = Some {| kv_uri := uri o; kv_listeners := [] |}).
Proof.
  intros Hthis Hl Hh. rewrite (addListener_run _ _ _ _ _ Hthis Hl Hh).
  cbn [fst snd]. split; [done |].
  split; [simpl; by rewrite lookup_insert_eq |].
  split; [unfold mirror_of; simpl; by rewrite lookup_insert_eq |].
  split; [done |].
  unfold bind at 1. rewrite (addListener_run _ _ _ _ _ Hthis Hl Hh).
  unfold bind at 1.
  erewrite disconnect_run;
    [| simpl; apply lookup_insert_eq
     | unfold live in *; simpl; by apply andb_true_iff in Hl as [-> _]].
  unfold bind at 1.
  erewrite (turn_last _ (queue w)) by reflexivity. cbn [settle].
  erewrite after_close_run by (simpl; apply lookup_insert_eq).
  unfold bind at 1.
  erewrite reconnect_run; [| simpl; apply lookup_insert_eq | reflexivity].
  cbv beta iota.
  erewrite (turn_last _ (queue w)) by reflexivity. cbn [settle].
  erewrite after_load_run by (simpl; apply lookup_insert_eq).
  eexists _, _. split; [reflexivity |].
  split; [simpl; apply lookup_insert_eq |]. done.
Qed.

Lemma listeners_lost_on_reconnect_witness :
  keyv <$> objects (addListener 0%nat "error" sample_world).2 !! 0%nat
  = Some (Some {| kv_uri := "sqlite://db/store.sqlite";
                  kv_listeners := ["error"] |}).
Proof.
  exact (proj1 (proj2 (listeners_lost_on_reconnect sample_world 0%nat
                         sample_obj (new_Keyv "sqlite://db/store.sqlite")
                         "error" true sample_world_store eq_refl eq_refl))).
Defined.

(** ** What no call does *)

Lemma same_identity_refl o : same_identity o o.
Proof. done. Qed.

Lemma same_identity_trans o1 o2 o3 :
  same_identity o1 o2 -> same_identity o2 o3 -> same_identity o1 o3.
Proof. unfold same_identity. intros (-> & -> & ->) (-> & -> & ->). done. Qed.

Lemma identities_kept_refl w : identities_kept w w.
Proof.
  intros i. destruct (objects w !! i); constructor. apply same_identity_refl.
Qed.

Lemma identities_kept_trans w1 w2 w3 :
  identities_kept w1 w2 -> identities_kept w2 w3 -> identities_kept w1 w3.
Proof.
  intros H12 H23 i. specialize (H12 i). specialize (H23 i).
  destruct H12 as [o1 o2 H12|]; inversion H23; subst; constructor.
  by apply (same_identity_trans o1 o2).
Qed.

Lemma identities_kept_modify w this f :
  (forall o, same_identity o (f o)) ->
  identities_kept w (modify this f w).2.
Proof.
  intros Hf. unfold modify.
  destruct (objects w !! this) as [o|] eqn:Hthis;
    [| apply identities_kept_refl].
  intros i. simpl. destruct (decide (i = this)) as [->|Hne].
  - rewrite Hthis, lookup_insert_eq. constructor. apply Hf.
  - rewrite lookup_insert_ne by done.
    destruct (objects w !! i); constructor. apply same_identity_refl.
Qed.

Lemma stable_refl w : stable w w.
Proof.
  split; [done |]. split; [| apply identities_kept_refl].
  exists []. by rewrite app_nil_r.
Qed.

Lemma stable_trans w1 w2 w3 : stable w1 w2 -> stable w2 w3 -> stable w1 w3.
Proof.
  intros (Hb1 & [ts1 Hq1] & Hi1) (Hb2 & [ts2 Hq2] & Hi2).
  split; [congruence |]. split.
  - exists (ts1 ++ ts2)%list. by rewrite Hq2, Hq1, app_assoc.
  - by apply (identities_kept_trans w1 w2).
Qed.

(** The methods, over any relation on worlds that is a preorder and that
    the three ways of changing the world respect. *)
Section Keeps.
Variable R : World -> World -> Prop.
Hypothesis R_refl : forall w, R w w.
Hypothesis R_trans : forall w1 w2 w3, R w1 w2 -> R w2 w3 -> R w1 w3.
Hypothesis R_modify : forall this f,
  (forall o, same_identity o (f o)) -> keeps R (modify this f).
Hypothesis R_spawn : forall t, keeps R (spawn t).
Hypothesis R_log : forall l msg, keeps R (log l msg).

Lemma keeps_ret {A} (a : A) : keeps R (ret a).
Proof. intros w. apply R_refl. Qed.

Lemma keeps_throw {A} : keeps R (@throw A).
Proof. intros w. apply R_refl. Qed.

Lemma keeps_self this : keeps R (self this).
Proof. intros w. unfold self. destruct (objects w !! this); apply R_refl. Qed.

Lemma keeps_bind {A B} (m : M A) (k : A -> M B) :
  keeps R m -> (forall a, keeps R (k a)) -> keeps R (bind m k).
Proof.
  intros Hm Hk w. unfold bind. specialize (Hm w).
  destruct (m w) as [[a|] w1]; [| exact Hm].
  apply (R_trans _ w1); [exact Hm | apply Hk].
Qed.

Lemma keeps_for_each {A} (l : list A) (body : A -> M unit) :
  (forall x, keeps R (body x)) -> keeps R (for_each l body).
Proof.
  intros Hbody. induction l as [|x l IH]; cbn [for_each].
  - apply keeps_ret.
  - apply keeps_bind; [apply Hbody | intros _; exact IH].
Qed.

Ltac keeps_step :=
  first
    [ apply keeps_ret | apply keeps_throw | apply keeps_self
    | apply R_spawn | apply R_log
    | apply R_modify; intros ?; done
    | apply keeps_for_each; intros ?
    | apply keeps_bind; [| intros ?]
    | match goal with
      | |- keeps _ (if ?b then _ else _) => destruct b
      | |- keeps _ (match ?x with _ => _ end) => destruct x
      end ].

Lemma keeps_connected this : keeps R (connected this).
Proof. unfold connected. repeat keeps_step. Qed.

Lemma keeps_internalStore this : keeps R (internalStore this).
Proof. unfold internalStore. repeat keeps_step. Qed.

Lemma keeps_has this key : keeps R (has this key).
Proof.
  unfold has. apply keeps_bind; [apply keeps_connected | intros ?].
  repeat keeps_step.
Qed.

Lemma keeps_update this before action : keeps R (update this before action).
Proof.
  unfold update. apply keeps_bind; [apply keeps_connected | intros ?].
  repeat keeps_step.
Qed.

Lemma keeps_set this key v : keeps R (set this key v).
Proof.
  unfold set, assign. apply keeps_bind; [apply keeps_connected | intros ?].
  destruct (negb a); [apply keeps_ret |].
  apply keeps_bind; [apply keeps_internalStore | intros ?].
  apply keeps_bind; [| intros ?; apply keeps_update].
  apply R_modify. intros ?. done.
Qed.

Lemma keeps_get this key fallback : keeps R (get this key fallback).
Proof.
  unfold get, read. apply keeps_bind; [apply keeps_connected | intros ?].
  destruct (negb a); [apply keeps_ret |].
  apply keeps_bind; [apply keeps_has | intros ?].
  apply keeps_bind; [| intros ?; repeat keeps_step].
  destruct (negb (truthy a0)); [| apply keeps_ret].
  destruct (bool_decide (fallback = VUndefined)); [apply keeps_ret |].
  apply keeps_bind; [apply keeps_set | intros ?]. repeat keeps_step.
Qed.

Lemma keeps_addListener this event : keeps R (addListener this event).
Proof.
  unfold addListener. apply keeps_bind; [apply keeps_connected | intros ?].
  repeat keeps_step.
Qed.

Lemma keeps_connect this : keeps R (connect this).
Proof.
  unfold connect. apply keeps_bind; [apply keeps_self | intros ?].
  apply keeps_bind; [apply R_modify; intros ?; done |].
  intros ?. apply keeps_bind; [apply R_log | intros ?].
  apply keeps_bind; [apply keeps_addListener | intros ?]. apply R_spawn.
Qed.

Lemma keeps_reconnect this : keeps R (reconnect this).
Proof.
  unfold reconnect. apply keeps_bind; [apply keeps_connected | intros ?].
  destruct a; [apply keeps_ret |].
  apply keeps_bind; [apply R_log | intros ?].
  apply keeps_bind; [apply keeps_connect | intros ?]. apply keeps_ret.
Qed.

Lemma keeps_disconnect this : keeps R (disconnect this).
Proof.
  unfold disconnect. apply keeps_bind; [apply keeps_connected | intros ?].
  repeat keeps_step.
Qed.

Lemma keeps_invoke c this : keeps R (invoke c this).
Proof.
  destruct c; cbn [invoke].
  - apply keeps_has.
  - apply keeps_get.
  - apply keeps_set.
  - unfold delete. apply keeps_bind; [apply keeps_connected | intros ?].
    destruct (negb a); [apply keeps_ret |].
    apply keeps_bind; [apply keeps_has | intros ?].
    destruct (negb (truthy a0)); [apply keeps_ret |].
    apply keeps_bind; [apply keeps_internalStore | intros ?].
    apply keeps_bind; [| intros ?; apply keeps_update].
    apply R_modify. intros ?. done.
  - unfold reconcile, assign.
    apply keeps_bind; [apply keeps_connected | intros ?].
    destruct (negb a); [apply keeps_ret |].
    apply keeps_bind; [apply R_log | intros ?].
    apply keeps_bind; [apply keeps_internalStore | intros ?].
    apply keeps_bind; [| intros ?; apply keeps_update].
    apply keeps_for_each. intros kv.
    apply keeps_bind; [apply keeps_has | intros ?]. repeat keeps_step.
  - unfold clear. apply keeps_bind; [apply keeps_connected | intros ?].
    destruct (negb a); [apply keeps_ret |].
    apply keeps_bind; [apply R_log | intros ?].
    apply keeps_bind; [apply keeps_internalStore | intros ?].
    apply keeps_bind; [| intros ?; apply keeps_update].
    apply R_modify. intros ?. done.
  - unfold copyKey. apply keeps_bind; [apply keeps_connected | intros ?].
    apply keeps_bind.
    { destruct (negb a); [apply keeps_ret |].
      apply keeps_bind; [apply keeps_connected | intros ?]. apply keeps_ret. }
    intros c'. destruct c'; [apply keeps_ret |].
    apply keeps_bind; [apply keeps_get | intros ?].
    destruct (bool_decide (a0 = VNull)); [apply keeps_ret | apply keeps_set].
  - unfold copyFrom, assign.
    apply keeps_bind; [apply keeps_connected | intros ?].
    apply keeps_bind.
    { destruct (negb a); [apply keeps_ret |].
      apply keeps_bind; [apply keeps_connected | intros ?]. apply keeps_ret. }
    intros c'. destruct c'; [apply keeps_ret |].
    apply keeps_bind; [apply keeps_internalStore | intros ?].
    apply keeps_bind.
    { destruct clean; [| apply keeps_ret].
      apply R_modify. intros ?. done. }
    intros ?. apply keeps_bind; [apply keeps_internalStore | intros ?].
    apply keeps_bind; [| intros ?; apply keeps_update].
    apply keeps_for_each. intros key.
    apply keeps_bind; [apply keeps_internalStore | intros ?].
    apply R_modify. intros ?. done.
  - apply keeps_addListener.
  - apply keeps_update.
Qed.

(** The reactions of the event loop, except the backend's own write. *)
Lemma keeps_on_write_rejected this before action :
  keeps R (on_write_rejected this before action).
Proof. unfold on_write_rejected. repeat keeps_step. Qed.

Lemma keeps_after_close this : keeps R (after_close this).
Proof. unfold after_close. repeat keeps_step. Qed.

Lemma keeps_after_load this h : keeps R (after_load this h).
Proof.
  unfold after_load. apply keeps_bind.
  - intros w. apply R_refl.
  - intros r. repeat keeps_step.
Qed.

End Keeps.

Lemma stable_modify this f :
  (forall o, same_identity o (f o)) -> keeps stable (modify this f).
Proof.
  intros Hf w. split; [| split].
  - unfold modify. by destruct (objects w !! this).
  - exists []. rewrite app_nil_r. unfold modify.
    by destruct (objects w !! this).
  - by apply identities_kept_modify.
Qed.

Lemma stable_spawn t : keeps stable (spawn t).
Proof.
  intros w. split; [done |]. split; [by exists [t] |].
  intros i. simpl. destruct (objects w !! i); by constructor.
Qed.

Lemma stable_log l msg : keeps stable (log l msg).
Proof.
  intros w. split; [done |]. split.
  - exists []. simpl. by rewrite app_nil_r.
  - intros i. simpl. destruct (objects w !! i); by constructor.
Qed.

(** X25. What no call does. Whatever the world, the reference and the
    arguments, a call of [has], [get], [set], [delete], [reconcile],
    [clear], [copyKey], [copyFrom], [addListener], [update], [disconnect]
    or [reconnect] leaves the persisted records as they are (only a
    settled write changes them), removes or runs no pending reaction (it
    can only add some), and keeps every instance in place with its [uri],
    [cleanUri] and mode. *)
Theorem calls_are_stable c this w :
  stable w (invoke c this w).2
  /\ stable w (disconnect this w).2
  /\ stable w (reconnect this w).2.
Proof.
  split; [| split].
  - apply (keeps_invoke stable stable_refl stable_trans stable_modify
             stable_spawn stable_log).
  - apply (keeps_disconnect stable stable_refl stable_trans stable_modify
             stable_spawn).
  - apply (keeps_reconnect stable stable_refl stable_trans stable_modify
             stable_spawn stable_log).
Qed.

Lemma delete_beyond {A} (l : list A) i :
  l !! i = None -> base.delete i l = l.
Proof.
  revert i. induction l as [|x l IH]; intros [|i] H; simpl in *;
    [done | done | done |].
  f_equal. by apply IH.
Qed.

(** X26. What no reaction does. A turn of the event loop takes exactly the
    settled reaction off the pending ones and schedules nothing; it changes
    the persisted records only when the reaction is a fulfilled write, and
    then only the record of that write's address; and it keeps every
    instance in place with its [uri], [cleanUri] and mode. *)
Theorem reactions_are_confined i ok w :
  queue (turn i ok w).2 = base.delete i (queue w)
  /\ backend (turn i ok w).2
     = match queue w !! i with
       | Some (PersistWrite _ h payload _ _) =>
           if ok then <[kv_uri h := payload]> (backend w) else backend w
       | _ => backend w
       end
  /\ identities_kept w (turn i ok w).2.
Proof.
  set (R := fun w w' : World =>
              queue w' = queue w /\ backend w' = backend w
              /\ identities_kept w w').
  assert (forall w, R w w) as R_refl
    by (intros w0; repeat split; apply identities_kept_refl).
  assert (forall w1 w2 w3, R w1 w2 -> R w2 w3 -> R w1 w3) as R_trans.
  { intros w1 w2 w3 (Hq1 & Hb1 & Hi1) (Hq2 & Hb2 & Hi2).
    split; [congruence |]. split; [congruence |].
    by apply (identities_kept_trans w1 w2). }
  assert (forall this f,
            (forall o, same_identity o (f o)) -> keeps R (modify this f))
    as R_modify.
  { intros this f Hf w0. split; [| split].
    - unfold modify. by destruct (objects w0 !! this).
    - unfold modify. by destruct (objects w0 !! this).
    - by apply identities_kept_modify. }
  assert (forall l msg, keeps R (log l msg)) as R_log.
  { intros l msg w0. repeat split.
    intros j. simpl. destruct (objects w0 !! j); by constructor. }
  unfold turn. destruct (queue w !! i) as [t|] eqn:Ht.
  2:{ cbn [snd]. rewrite (delete_beyond _ _ Ht).
      repeat split. apply identities_kept_refl. }
  set (w0 := with_queue (base.delete i (queue w)) w).
  assert (R w0 (settle t ok w0).2 ->
          queue (settle t ok w0).2 = base.delete i (queue w)
          /\ backend (settle t ok w0).2 = backend w
          /\ identities_kept w (settle t ok w0).2) as Hfrom
    by (intros (Hq & Hb & Hi); done).
  destruct t as [this h payload before action | this h | this]; cbn [settle].
  - destruct ok.
    + repeat split.
      intros j. simpl. destruct (objects w !! j); by constructor.
    + apply Hfrom.
      apply (keeps_on_write_rejected R R_refl R_trans R_modify R_log).
  - destruct ok; apply Hfrom.
    + apply (keeps_after_load R R_refl R_trans R_modify).
    + apply R_refl.
  - apply Hfrom. apply (keeps_after_close R R_trans R_modify R_log).
Qed.


